(** * gym-grid: the discrete MDP engine and the grid world of [puddle_world.py]

    A shallow embedding of [src/puddle_world/envs/puddle_world.py]:

    - [categorical_sample] (numpy [cumsum], comparison and [argmax] over
      binary64 floats),
    - the table-driven [DiscreteEnv] ([_reset], [_step]),
    - the [GridWorld] environment ([__init__], [_reset], [_step],
      [_get_reward], [at_border], [ind2coord], [coord2ind]).

    Python [float] is IEEE binary64 and is modelled by Rocq's primitive
    floats; Python [int] is unbounded and is modelled by [Z]; [//] and [%]
    are floor division and its remainder, which is what [Z.div] and
    [Z.modulo] compute for a non-zero divisor.  An exception is an explicit
    [Raise] result.  Every random draw the code makes ([np_random.rand()],
    [np.random.rand()], [action_space.sample()], [np.random.randint]) is an
    explicit argument of the function that makes it. *)

From Stdlib Require Import ZArith Lia List Bool Floats.
From stdpp Require Import base option list gmap strings.

Local Open Scope Z_scope.

(** ** Exceptions *)

Inductive exn : Set :=
| AssertionError
| ZeroDivisionError
| ValueError
| KeyError
| IndexError.

Inductive result (A : Type) : Type :=
| Ok (a : A)
| Raise (e : exn).
Arguments Ok {A} a.
Arguments Raise {A} e.

#[global] Instance result_ret : MRet result := fun _ a => Ok a.
#[global] Instance result_bind : MBind result := fun _ _ f m =>
  match m with
  | Ok a => f a
  | Raise e => Raise e
  end.

(** [assert c] *)
Definition assert (c : bool) : result unit :=
  if c then Ok tt else Raise AssertionError.

Definition raises {A} (m : result A) : Prop := ∃ e, m = Raise e.

(** ** Floats: the comparisons the code uses *)

Module F.
Definition gt (x y : float) : bool := PrimFloat.ltb y x.   (* x > y *)
Definition lt (x y : float) : bool := PrimFloat.ltb x y.   (* x < y *)
Definition le (x y : float) : bool := PrimFloat.leb x y.   (* x <= y *)
Definition ne (x y : float) : bool := negb (PrimFloat.eqb x y). (* x != y *)

(** a draw of [rand()]: a float of the half-open unit interval *)
Definition unit_draw (u : float) : Prop := le 0 u = true ∧ lt u 1 = true.
End F.

(** ** The categorical sampler *)

(** [np.cumsum]: [out[0] = a[0]], [out[i] = out[i-1] + a[i]], each sum
    rounded to binary64. *)
Fixpoint cumsum_from (acc : float) (a : list float) : list float :=
  match a with
  | [] => []
  | x :: a' => let acc' := (acc + x)%float in acc' :: cumsum_from acc' a'
  end.

Definition cumsum (a : list float) : list float :=
  match a with
  | [] => []
  | x :: a' => x :: cumsum_from x a'
  end.

(** [ndarray.argmax] of a boolean array: the index of the first occurrence
    of the maximum; on an empty array numpy raises [ValueError].
    [argmax_from best besti i bs] scans [bs], whose first element has index
    [i], with the running maximum [best] found at [besti]. *)
Fixpoint argmax_from (best : bool) (besti i : nat) (bs : list bool) : nat :=
  match bs with
  | [] => besti
  | b :: bs' =>
      if negb best && b then argmax_from b i (S i) bs'
      else argmax_from best besti (S i) bs'
  end.

Definition argmax (bs : list bool) : result nat :=
  match bs with
  | [] => Raise ValueError
  | b :: bs' => Ok (argmax_from b 0 1 bs')
  end.

(** [categorical_sample(prob_n, np_random)], with [draw] the value of
    [np_random.rand()]. *)
Definition categorical_sample (prob_n : list float) (draw : float) : result nat :=
  let csprob_n := cumsum prob_n in
  argmax (map (fun c => F.gt c draw) csprob_n).

(** the cumulative sums never decrease *)
Fixpoint nondecreasing (cs : list float) : bool :=
  match cs with
  | a :: (b :: _) as cs' => F.le a b && nondecreasing cs'
  | _ => true
  end.

(** [cs[i-1]], taking [cs[-1] = 0] *)
Definition cs_before (cs : list float) (i : nat) : float :=
  match i with
  | O => 0%float
  | S k => default 0%float (cs !! k)
  end.

(** a probability vector: the entries are non-negative and sum to 1, that
    is, the last cumulative sum [np.cumsum] computes is exactly [1.0] *)
Definition probability_vector (p : list float) : Prop :=
  Forall (λ x, F.le 0 x = true) p ∧ last (cumsum p) = Some 1%float.

(** ** The table-driven engine *)

Module DiscreteEnv.

(** an entry [(probability, nextstate, reward, done)] of [P[s][a]] *)
Definition transition : Type := float * Z * float * bool.

Definition t0 (t : transition) : float := t.1.1.1.   (* t[0] *)

Record env : Type := Env {
  P : gmap Z (gmap Z (list transition));
  isd : list float;
  lastaction : option Z;
  nS : Z;
  nA : Z;
  s : Z
}.

(** [dict[key]]: a missing key raises [KeyError] *)
Definition getitem {V} (d : gmap Z V) (k : Z) : result V :=
  match d !! k with
  | Some v => Ok v
  | None => Raise KeyError
  end.

(** [list[i]] for an index [i >= 0] *)
Definition list_getitem {V} (l : list V) (i : nat) : result V :=
  match l !! i with
  | Some v => Ok v
  | None => Raise IndexError
  end.

Definition _reset (self : env) (draw : float) : result (env * Z) :=
  i ← categorical_sample self.(isd) draw;
  let s' := Z.of_nat i in
  Ok (Env self.(P) self.(isd) None self.(nS) self.(nA) s', s').

(** the value [_step] returns: [(s, r, d, {"prob" : p})] *)
Definition step_result : Type := Z * float * bool * gmap string float.

Definition _step (self : env) (a : Z) (draw : float) : result (env * step_result) :=
  row ← getitem self.(P) self.(s);
  transitions ← getitem row a;
  i ← categorical_sample (map t0 transitions) draw;
  t ← list_getitem transitions i;
  let '(p, s', r, d) := t in
  Ok (Env self.(P) self.(isd) (Some a) self.(nS) self.(nA) s',
      (s', r, d, {[ "prob"%string := p ]})).

(** [__init__(nS, nA, P, isd)]; [_seed()] fixes the random source, whose
    first draw [draw] is consumed by the [_reset()] that ends the
    constructor.  [self.s] does not exist before that [_reset()]; the
    [0] below is never read. *)
Definition __init__ (nS nA : Z) (P : gmap Z (gmap Z (list transition)))
    (isd : list float) (draw : float) : result env :=
  r ← _reset (Env P isd None nS nA 0) draw;
  Ok r.1.

(** the table and the initial distribution of the two-state scenario:
    [P = {0: {0: [(1.0, 1, 5.0, True)]}, 1: {0: [(1.0, 1, 0.0, True)]}}],
    [isd = [1.0, 0.0]] *)
Definition scenario_P : gmap Z (gmap Z (list transition)) :=
  {[ 0 := {[ 0 := [(1%float, 1, 5%float, true)] ]};
     1 := {[ 0 := [(1%float, 1, 0%float, true)] ]} ]}.

Definition scenario_isd : list float := [1%float; 0%float].

(** The caller's loop, which is not part of the source: one [_step] per
    input (action and draw), in order; the first exception ends the run. *)
Fixpoint run (self : env) (ins : list (Z * float))
    : result (env * list step_result) :=
  match ins with
  | [] => Ok (self, [])
  | (a, draw) :: ins' =>
      sr ← _step self a draw;
      rest ← run sr.1 ins';
      Ok (rest.1, sr.2 :: rest.2)
  end.

(** a table is closed for [nA] actions when every state it lists has, for
    each action of [[0, nA)], a non-empty list of transitions that lead to
    states it lists *)
Definition closed (P : gmap Z (gmap Z (list transition))) (nA : Z) : Prop :=
  ∀ s row, P !! s = Some row →
  ∀ a, 0 <= a < nA →
  ∃ transitions, row !! a = Some transitions ∧ transitions ≠ []
    ∧ ∀ t, t ∈ transitions → is_Some (P !! t.1.1.2).

End DiscreteEnv.

(** ** The grid world *)

Definition UP : Z := 0.
Definition RIGHT : Z := 1.
Definition DOWN : Z := 2.
Definition LEFT : Z := 3.

(** [spaces.Discrete(k).contains(x)] for an integer [x] *)
Definition Discrete_contains (k x : Z) : bool := (0 <=? x) && (x <? k).

Module GridWorld.

(** [start_state] is an index or a string (['random']) *)
Inductive start : Type :=
| StartIndex (i : Z)
| StartStr (name : string).

(** the attributes [__init__] sets once and nothing changes afterwards *)
Record params : Type := Params {
  n : Z;
  noise : float;
  terminal_reward : float;
  border_reward : float;
  step_reward : float;
  start_state : start;
  bump_reward : float;
  terminal_state_offset : Z
}.

Definition n_states (c : params) : Z := c.(n) ^ 2 + 1.
Definition terminal_state (c : params) : Z :=
  n_states c - 2 - c.(terminal_state_offset).
Definition absorbing_state (c : params) : Z := n_states c - 1.

(** the object: its fixed attributes, [self.state] and [self.done] *)
Record env : Type := Env {
  cfg : params;
  state : Z;
  done : bool
}.

(** the defaults of [__init__]; [0.1] is the binary64 nearest to 1/10 *)
Definition default : params :=
  Params 10 0x1.999999999999ap-4%float 1%float 0%float 0%float
         (StartIndex 0) (-0.5)%float 11.

(** the 3 x 3 scenario: [GridWorld(n=3, noise=0, start_state=0,
    terminal_state_offset=1)], the other arguments at their defaults *)
Definition scenario_3x3 : params :=
  Params 3 0%float 1%float 0%float 0%float (StartIndex 0) (-0.5)%float 1.

Definition ind2coord (n index : Z) : result (Z * Z) :=
  _ ← assert (index >=? 0);
  if n =? 0 then Raise ZeroDivisionError
  else
    let col := index / n in
    let row := index mod n in
    Ok (row, col).

Definition coord2ind (n : Z) (coord : Z * Z) : result Z :=
  let '(row, col) := coord in
  _ ← assert (row <? n);
  _ ← assert (col <? n);
  Ok (col * n + row).

Definition at_border (self : env) : result bool :=
  '(row, col) ← ind2coord self.(cfg).(n) self.(state);
  Ok ((row =? 0) || (row =? self.(cfg).(n) - 1)
      || (col =? 0) || (col =? self.(cfg).(n) - 1)).

(** [self.state == new_state], where [new_state] may be [None] *)
Definition state_is (self : env) (new_state : option Z) : bool :=
  match new_state with
  | Some s' => self.(state) =? s'
  | None => false
  end.

Definition _get_reward (self : env) (new_state : option Z) : result float :=
  if self.(done) then Ok self.(cfg).(terminal_reward)
  else
    let reward := self.(cfg).(step_reward) in
    reward ←
      (if F.ne self.(cfg).(border_reward) 0
       then b ← at_border self;
            Ok (if b : bool then self.(cfg).(border_reward) else reward)
       else Ok reward);
    let reward :=
      if F.ne self.(cfg).(bump_reward) 0 && state_is self new_state
      then self.(cfg).(bump_reward) else reward in
    Ok reward.

(** the clamped move of [_step] *)
Definition move (n action row col : Z) : Z * Z :=
  if action =? UP then (Z.max (row - 1) 0, col)
  else if action =? DOWN then (Z.min (row + 1) (n - 1), col)
  else if action =? RIGHT then (row, Z.min (col + 1) (n - 1))
  else if action =? LEFT then (row, Z.max (col - 1) 0)
  else (row, col).

(** the value [_step] returns: [(state, reward, done, None)] *)
Definition step_result : Type := Z * float * bool * option unit.

(** [_step(action)]; [draw] is the value of [np.random.rand()] and
    [sampled] that of [self.action_space.sample()], which the code
    evaluates only when [draw < self.noise]. *)
Definition _step (self : env) (action : Z) (draw : float) (sampled : Z)
    : result (env * step_result) :=
  _ ← assert (Discrete_contains 4 action);
  if self.(state) =? terminal_state self.(cfg) then
    let self := Env self.(cfg) (absorbing_state self.(cfg)) true in
    reward ← _get_reward self None;
    Ok (self, (self.(state), reward, self.(done), None))
  else
    '(row, col) ← ind2coord self.(cfg).(n) self.(state);
    let action := if F.lt draw self.(cfg).(noise) then sampled else action in
    let '(row, col) := move self.(cfg).(n) action row col in
    new_state ← coord2ind self.(cfg).(n) (row, col);
    reward ← _get_reward self (Some new_state);
    let self := Env self.(cfg) new_state self.(done) in
    Ok (self, (self.(state), reward, self.(done), None)).

(** [_reset()]; [drawn] is the value of
    [np.random.randint(self.n_states - 1)], which raises [ValueError]
    on an empty range. *)
Definition _reset (self : env) (drawn : Z) : result (env * Z) :=
  st ← match self.(cfg).(start_state) with
       | StartIndex i => Ok i
       | StartStr _ =>
           if 0 <? n_states self.(cfg) - 1 then Ok drawn
           else Raise ValueError
       end;
  Ok (Env self.(cfg) st false, st).

(** [__init__]: the attributes, then [_reset()].  [self.state] does not
    exist before that [_reset()]; the [0] below is never read. *)
Definition __init__ (c : params) (drawn : Z) : result env :=
  r ← _reset (Env c 0 false) drawn;
  Ok r.1.

(** one input of a run: the action and the two random values of a step *)
Definition input : Type := Z * float * Z.

(** the inputs of a run of [actions] whose draws are all [0.5] *)
Definition quiet (actions : list Z) : list input :=
  map (λ a, (a, 0.5%float, 0)) actions.

(** the number of moves between two cells of the grid, and a move that
    brings the first one closer to the second *)
Definition distance (n s t : Z) : Z :=
  Z.abs (s mod n - t mod n) + Z.abs (s / n - t / n).

Definition toward (n s t : Z) : Z :=
  if t mod n <? s mod n then UP
  else if s mod n <? t mod n then DOWN
  else if s / n <? t / n then RIGHT
  else LEFT.

(** the state after a clamped move of [action], in index arithmetic *)
Definition shifted (n state action : Z) : Z :=
  if action =? UP then (if state mod n =? 0 then state else state - 1)
  else if action =? DOWN then (if state mod n =? n - 1 then state else state + 1)
  else if action =? RIGHT then (if state / n =? n - 1 then state else state + n)
  else if action =? LEFT then (if state / n =? 0 then state else state - n)
  else state.

(** The caller's loop, which is not part of the source: an episode is one
    run of [_step] calls up to the first step that returns [done].  The
    run also stops at an exception or when the inputs are used up.  Each
    entry is the state before the step and what the step returned. *)
Fixpoint episode (self : env) (ins : list input) : list (Z * step_result) :=
  match ins with
  | [] => []
  | (action, draw, sampled) :: ins' =>
      match _step self action draw sampled with
      | Raise _ => []
      | Ok (self', r) =>
          (self.(state), r) :: (if r.1.2 then [] else episode self' ins')
      end
  end.

End GridWorld.

(** * Properties *)

(** ** Concrete runs *)

Section Runs.

Import GridWorld.

Example sample_quarters :
  let p := [0.25%float; 0.5%float; 0.25%float] in
  cumsum p = [0.25%float; 0.75%float; 1%float]
  ∧ categorical_sample p 0.125%float = Ok 0%nat
  ∧ categorical_sample p 0.25%float = Ok 1%nat
  ∧ categorical_sample p 0.875%float = Ok 2%nat.
Proof. repeat split; reflexivity. Qed.

Example sample_empty : categorical_sample [] 0.5%float = Raise ValueError.
Proof. reflexivity. Qed.

(** ten weights [0.1] sum to [1 - 2^-53] in binary64 *)
Example cumsum_tenths :
  last (cumsum (repeat 0x1.999999999999ap-4%float 10))
  = Some 0x1.fffffffffffffp-1%float.
Proof. reflexivity. Qed.

(** with the defaults, [LEFT] from state 0 is a bump *)
Example default_bump :
  _step (Env default 0 false) LEFT 0.5%float 0
  = Ok (Env default 0 false, (0, (-0.5)%float, false, None)).
Proof. reflexivity. Qed.

(** a draw below the noise replaces the action by the sampled one *)
Example default_noise :
  _step (Env default 0 false) LEFT 0.0625%float DOWN
  = Ok (Env default 1 false, (1, 0%float, false, None)).
Proof. reflexivity. Qed.

(** with a border reward of 2 and a bump reward of -0.5, a clamped move
    from a border cell gets the bump reward, another move from it the
    border reward, and a move from an inner cell the step reward *)
Example border_and_bump :
  let c := Params 3 0%float 1%float 2%float 0%float (StartIndex 0)
             (-0.5)%float 1 in
  _step (Env c 0 false) LEFT 0.5%float 0
  = Ok (Env c 0 false, (0, (-0.5)%float, false, None))
  ∧ _step (Env c 0 false) RIGHT 0.5%float 0
    = Ok (Env c 3 false, (3, 2%float, false, None))
  ∧ _step (Env c 4 false) RIGHT 0.5%float 0
    = Ok (Env c 7 false, (7, 0%float, false, None)).
Proof. repeat split; reflexivity. Qed.

Example ind2coord_empty_grid : ind2coord 0 5 = Raise ZeroDivisionError.
Proof. reflexivity. Qed.

Example reset_random :
  let c := Params 3 0%float 1%float 0%float 0%float (StartStr "random")
             (-0.5)%float 1 in
  __init__ c 5 = Ok (Env c 5 false)
  ∧ _reset (Env c 9 true) 2 = Ok (Env c 2 false, 2).
Proof. split; reflexivity. Qed.

(** a full episode of the 3 x 3 scenario: down, down, right to the
    terminal cell 7, and the step out of it *)
Example episode_3x3 :
  episode (Env scenario_3x3 0 false)
    [(DOWN, 0.5%float, 0); (DOWN, 0.5%float, 0); (RIGHT, 0.5%float, 0);
     (RIGHT, 0.5%float, 0); (UP, 0.5%float, 0); (UP, 0.5%float, 0)]
  = [(0, (1, 0%float, false, None)); (1, (2, 0%float, false, None));
     (2, (5, 0%float, false, None)); (5, (8, 0%float, false, None));
     (8, (7, 0%float, false, None)); (7, (9, 1%float, true, None))].
Proof. reflexivity. Qed.

End Runs.

(** ** The order of binary64 floats

    The comparisons of primitive floats are specified by [SFcompare] on
    their decoded form; the facts below are the part of the order the
    sampler's properties rest on. *)

Section FloatOrder.

Local Ltac cmp_cases :=
  repeat match goal with
  | |- context [Z.compare ?a ?b] => destruct (Z.compare_spec a b); subst
  | |- context [Pos.compare ?a ?b] => destruct (Pos.compare_spec a b); subst
  | H : context [Z.compare ?a ?b] |- _ => destruct (Z.compare_spec a b); subst
  | H : context [Pos.compare ?a ?b] |- _ => destruct (Pos.compare_spec a b); subst
  end.

Lemma SFcompare_antisym x y :
  SFcompare y x = CompOpp <$> SFcompare x y.
Proof.
  destruct x as [[]|[]| |[] m1 e1], y as [[]|[]| |[] m2 e2]; try reflexivity;
    cbn; f_equal; change (Pos.compare_cont Eq) with Pos.compare;
    rewrite (Z.compare_antisym e1 e2), (Pos.compare_antisym m1 m2);
    destruct (e1 ?= e2), (m1 ?= m2)%positive; reflexivity.
Qed.

Lemma SFcompare_trans x y z c1 c2 :
  SFcompare x y = Some c1 → SFcompare y z = Some c2 →
  c1 ≠ Gt → c2 ≠ Gt →
  ∃ c3, SFcompare x z = Some c3 ∧ c3 ≠ Gt ∧ (c1 = Lt ∨ c2 = Lt → c3 = Lt).
Proof.
  destruct x as [[]|[]| |[] m1 e1], y as [[]|[]| |[] m2 e2],
           z as [[]|[]| |[] m3 e3];
    cbn; change (Pos.compare_cont Eq) with Pos.compare;
    intros H1 H2 N1 N2; simplify_eq; try congruence;
    try (eexists; split; [reflexivity|]; split; [congruence|];
         intros [?|?]; congruence);
    eexists; (split; [reflexivity|]);
    cmp_cases; cbn in *; try congruence; try lia;
    (split; [congruence|]); intros [?|?]; congruence.
Qed.

End FloatOrder.

Section FloatComparisons.

Local Ltac to_spec :=
  unfold F.le, F.lt, F.gt in *;
  rewrite ?leb_spec, ?ltb_spec in *;
  unfold SFleb, SFltb in *.

Lemma F_le_trans x y z :
  F.le x y = true → F.le y z = true → F.le x z = true.
Proof.
  to_spec.
  destruct (SFcompare (Prim2SF x) (Prim2SF y)) as [c1|] eqn:E1; [|done].
  destruct (SFcompare (Prim2SF y) (Prim2SF z)) as [c2|] eqn:E2; [|done].
  intros H1 H2.
  destruct (SFcompare_trans _ _ _ _ _ E1 E2) as (c3 & -> & N & _);
    [by destruct c1|by destruct c2|by destruct c3].
Qed.

Lemma F_lt_le_trans x y z :
  F.lt x y = true → F.le y z = true → F.lt x z = true.
Proof.
  to_spec.
  destruct (SFcompare (Prim2SF x) (Prim2SF y)) as [c1|] eqn:E1; [|done].
  destruct (SFcompare (Prim2SF y) (Prim2SF z)) as [c2|] eqn:E2; [|done].
  intros H1 H2.
  destruct (SFcompare_trans _ _ _ _ _ E1 E2) as (c3 & -> & _ & L);
    [by destruct c1|by destruct c2|].
  rewrite L; [done|]. left. by destruct c1.
Qed.

Lemma F_lt_not_ge x y : F.lt x y = true → F.le y x = false.
Proof.
  to_spec. rewrite (SFcompare_antisym (Prim2SF x) (Prim2SF y)).
  by destruct (SFcompare (Prim2SF x) (Prim2SF y)) as [[]|].
Qed.

(** [x <= x] holds exactly when [x] is not a NaN *)
Lemma F_le_number_l x y : F.le x y = true → F.le x x = true.
Proof.
  to_spec.
  destruct (Prim2SF x) as [[]|[]| |[] m1 e1], (Prim2SF y) as [[]|[]| |[] m2 e2];
    cbn; try done; change (Pos.compare_cont Eq) with Pos.compare;
    by rewrite Z.compare_refl, Pos.compare_refl.
Qed.

Lemma F_le_number_r x y : F.le x y = true → F.le y y = true.
Proof.
  to_spec.
  destruct (Prim2SF x) as [[]|[]| |[] m1 e1], (Prim2SF y) as [[]|[]| |[] m2 e2];
    cbn; try done; change (Pos.compare_cont Eq) with Pos.compare;
    by rewrite Z.compare_refl, Pos.compare_refl.
Qed.

Lemma F_lt_le x y : F.lt x y = true → F.le x y = true.
Proof. to_spec. by destruct (SFcompare _ _) as [[]|]. Qed.

(** among numbers the order is total: not [x < y] gives [y <= x] *)
Lemma F_not_lt_ge x y :
  F.le x x = true → F.le y y = true → F.lt x y = false → F.le y x = true.
Proof.
  to_spec. rewrite (SFcompare_antisym (Prim2SF x) (Prim2SF y)).
  destruct (Prim2SF x) as [[]|[]| |[] m1 e1], (Prim2SF y) as [[]|[]| |[] m2 e2];
    cbn; try done; change (Pos.compare_cont Eq) with Pos.compare;
    intros _ _; by destruct (e1 ?= e2), (m1 ?= m2)%positive.
Qed.

(** a sum that is a number has summands that are numbers: a NaN
    propagates through an addition *)
Lemma F_add_number_l x y :
  F.le (x + y)%float (x + y)%float = true → F.le x x = true.
Proof.
  to_spec. rewrite add_spec.
  destruct (Prim2SF x) as [[]|[]| |[] m1 e1]; cbn; try done;
    change (Pos.compare_cont Eq) with Pos.compare;
    intros _; by rewrite Z.compare_refl, Pos.compare_refl.
Qed.

End FloatComparisons.

(** ** Rounding in binary64 addition

    [x + y] is specified by [SFadd]: the exact sum of the two mantissas,
    aligned on the smaller exponent, rounded to nearest even by
    [binary_round].  The section shows that adding a non-negative float
    to a non-negative float never gives a smaller float, which makes the
    cumulative sums of non-negative entries non-decreasing. *)

Section Rounding.

Lemma digits2_bounds (p : positive) :
  2 ^ (Z.pos (digits2_pos p) - 1) <= Z.pos p < 2 ^ Z.pos (digits2_pos p).
Proof.
  induction p as [p IH|p IH|]; cbn [digits2_pos].
  - rewrite Pos2Z.inj_succ. replace (Z.succ (Z.pos (digits2_pos p)) - 1)
      with (Z.succ (Z.pos (digits2_pos p) - 1)) by lia.
    rewrite !Z.pow_succ_r by lia. lia.
  - rewrite Pos2Z.inj_succ. replace (Z.succ (Z.pos (digits2_pos p)) - 1)
      with (Z.succ (Z.pos (digits2_pos p) - 1)) by lia.
    rewrite !Z.pow_succ_r by lia. lia.
  - cbn. lia.
Qed.

(** a larger number has at least as many digits *)
Lemma digits2_mono (a b : positive) (k : Z) :
  0 <= k → Z.pos a * 2 ^ k <= Z.pos b →
  Z.pos (digits2_pos a) + k <= Z.pos (digits2_pos b).
Proof.
  intros Hk Hab.
  pose proof (digits2_bounds a) as [Ha _].
  pose proof (digits2_bounds b) as [_ Hb].
  assert (H : 2 ^ (Z.pos (digits2_pos a) - 1 + k) < 2 ^ Z.pos (digits2_pos b)).
  { rewrite Z.pow_add_r by lia.
    assert (0 < 2 ^ k) by (apply Z.pow_pos_nonneg; lia). nia. }
  apply Z.pow_lt_mono_r_iff in H; lia.
Qed.

Lemma shr_1_m (r : shr_record) :
  0 <= shr_m r → shr_m (shr_1 r) = shr_m r / 2.
Proof.
  destruct r as [[|[p|p|]|p] r s]; cbn [shr_1 shr_m]; intros H; try lia.
  - done.
  - apply (Z.div_unique _ 2 _ 1); lia.
  - apply (Z.div_unique _ 2 _ 0); lia.
  - done.
Qed.

Lemma shr_1_nonneg (r : shr_record) : 0 <= shr_m r → 0 <= shr_m (shr_1 r).
Proof. intros H. rewrite shr_1_m by done. apply Z.div_pos; lia. Qed.

Lemma iter_shr_1_m (p : positive) (r : shr_record) :
  0 <= shr_m r →
  0 <= shr_m (SpecFloat.iter_pos shr_1 p r)
  ∧ shr_m (SpecFloat.iter_pos shr_1 p r) = shr_m r / 2 ^ Z.pos p.
Proof.
  revert r. induction p as [p IH|p IH|]; intros r Hr; cbn [SpecFloat.iter_pos].
  - destruct (IH (shr_1 r) (shr_1_nonneg r Hr)) as [H1 E1].
    destruct (IH _ H1) as [H2 E2]. split; [done|].
    assert (E : 2 ^ Z.pos p~1 = 2 * (2 ^ Z.pos p * 2 ^ Z.pos p)).
    { rewrite <- Z.pow_add_r, <- Z.pow_succ_r by lia. f_equal. lia. }
    assert (0 < 2 ^ Z.pos p) by (apply Z.pow_pos_nonneg; lia).
    rewrite E2, E1, shr_1_m, E by done.
    rewrite !Z.div_div by lia. done.
  - destruct (IH r Hr) as [H1 E1].
    destruct (IH _ H1) as [H2 E2]. split; [done|].
    assert (E : 2 ^ Z.pos p~0 = 2 ^ Z.pos p * 2 ^ Z.pos p).
    { rewrite <- Z.pow_add_r by lia. f_equal. lia. }
    assert (0 < 2 ^ Z.pos p) by (apply Z.pow_pos_nonneg; lia).
    rewrite E2, E1, E. by rewrite Z.div_div by lia.
  - split; [by apply shr_1_nonneg|]. by rewrite shr_1_m.
Qed.

Lemma shr_spec (r : shr_record) (e n : Z) :
  0 <= shr_m r →
  0 <= shr_m (shr r e n).1
  ∧ shr_m (shr r e n).1 = shr_m r / 2 ^ Z.max n 0
  ∧ (shr r e n).2 = e + Z.max n 0.
Proof.
  intros Hr. destruct n as [|p|p]; cbn [shr fst snd].
  - rewrite Z.div_1_r. lia.
  - destruct (iter_shr_1_m p r Hr) as [H E].
    replace (Z.max (Z.pos p) 0) with (Z.pos p) by lia. done.
  - replace (Z.max (Z.neg p) 0) with 0 by lia. rewrite Z.div_1_r. lia.
Qed.

Lemma round_nearest_even_ge (m : Z) (l : location) :
  m <= round_nearest_even m l.
Proof. destruct l as [|[]]; cbn; try lia. destruct (Z.even m); lia. Qed.

Lemma shr_record_of_loc_m (m : Z) (l : location) :
  shr_m (shr_record_of_loc m l) = m.
Proof. by destruct l as [|[]]. Qed.

(** Rounding a positive number [m * 2^e] that is at least the
    representable number [mx * 2^ex] gives a float that is at least that
    number. *)
Lemma binary_round_ge (mx : positive) (ex : Z) (m : positive) (e : Z) :
  canonical_mantissa prec emax mx ex = true →
  emin <= e <= ex → Z.pos mx * 2 ^ (ex - e) <= Z.pos m →
  SFleb (S754_finite false mx ex) (binary_round prec emax false m e) = true.
Proof.
  intros Hcan [Hemin He] Hm.
  apply Z.eqb_eq in Hcan.
  pose proof (digits2_mono mx m (ex - e) ltac:(lia) Hm) as Hdig.
  pose proof (digits2_bounds m) as [Hlow _].
  unfold binary_round.
  set (d := Z.pos (digits2_pos m)) in *.
  set (e' := fexp prec emax (d + e)).
  assert (He' : ex <= e' ∧ emin <= e' ∧ (e < e' → e' = d + e - prec)).
  { subst e'. unfold fexp, SpecFloat.emin, prec, emax in *. lia. }
  destruct He' as (He' & Hemin' & Hnormal).
  assert (Halign : shl_align m e e' = (m, e)).
  { unfold shl_align. destruct (e' - e) eqn:E; (done || lia). }
  rewrite Halign. unfold binary_round_aux, shr_fexp.
  cbn [Zdigits2]. fold d e'.
  (* the first shift *)
  destruct (shr_spec (shr_record_of_loc (Z.pos m) loc_Exact) e (e' - e))
    as (_ & Hm1 & He1); [by rewrite shr_record_of_loc_m|].
  rewrite shr_record_of_loc_m in Hm1.
  destruct (shr _ e (e' - e)) as [r1 e1]. cbn [fst snd] in Hm1, He1.
  replace (Z.max (e' - e) 0) with (e' - e) in * by lia.
  assert (e1 = e') as -> by lia. clear He1.
  assert (Hm1pos : 0 < shr_m r1).
  { rewrite Hm1. apply Z.div_str_pos. split; [apply Z.pow_pos_nonneg; lia|].
    destruct (decide (e' - e = 0)) as [->|Hne].
    - cbn. lia.
    - etrans; [|exact Hlow]. apply Z.pow_le_mono_r; [lia|].
      rewrite Hnormal by lia. unfold prec. lia. }
  (* the rounding *)
  pose proof (round_nearest_even_ge (shr_m r1) (loc_of_shr_record r1)) as Hrnd.
  set (m1' := round_nearest_even (shr_m r1) (loc_of_shr_record r1)) in *.
  destruct m1' as [|q|q] eqn:Eq1; [lia| |lia].
  (* the second shift *)
  set (n2 := fexp prec emax (Zdigits2 (Z.pos q) + e') - e').
  destruct (shr_spec (shr_record_of_loc (Z.pos q) loc_Exact) e' n2)
    as (_ & Hm2 & He2); [by rewrite shr_record_of_loc_m|].
  rewrite shr_record_of_loc_m in Hm2.
  destruct (shr _ e' n2) as [r2 e2]. cbn [fst snd] in Hm2, He2.
  assert (Hm2pos : 0 < shr_m r2).
  { rewrite Hm2. apply Z.div_str_pos. split; [apply Z.pow_pos_nonneg; lia|].
    pose proof (digits2_bounds q) as [Hq _].
    destruct (Z.le_gt_cases n2 0) as [Hn|Hn].
    - replace (Z.max n2 0) with 0 by lia. cbn. lia.
    - etrans; [|exact Hq]. apply Z.pow_le_mono_r; [lia|].
      subst n2. cbn [Zdigits2] in *.
      unfold fexp, SpecFloat.emin, prec, emax in *. lia. }
  destruct (shr_m r2) as [|m2|m2] eqn:Er2; [lia| |lia].
  destruct (e2 <=? emax - prec); [|done].
  unfold SFleb, SFcompare.
  destruct (Z.compare_spec ex e2) as [Heq|Hlt|Hgt]; [|done|lia].
  change (Pos.compare_cont Eq mx m2) with (mx ?= m2)%positive.
  destruct (Pos.compare_spec mx m2) as [?|?|Hgt]; [done|done|].
  exfalso.
  assert (e' = ex ∧ Z.max n2 0 = 0) as [-> Hn2] by lia.
  rewrite Hn2, Z.div_1_r in Hm2.
  assert (Z.pos mx <= shr_m r1); [|lia].
  rewrite Hm1. apply Z.div_le_lower_bound; [apply Z.pow_pos_nonneg; lia|lia].
Qed.

End Rounding.

Section Addition.

Lemma shl_align_fst (mx : positive) (ex ez : Z) :
  ez <= ex → Z.pos (shl_align mx ex ez).1 = Z.pos mx * 2 ^ (ex - ez).
Proof.
  intros H. unfold shl_align.
  destruct (ez - ex) as [|d|d] eqn:E; [|lia|].
  - replace (ex - ez) with 0 by lia. cbn [fst]. lia.
  - replace (ex - ez) with (Z.pos d) by lia. cbn [fst]. clear E H.
    induction d as [|d IH] using Pos.peano_ind.
    + cbn. lia.
    + rewrite Pos.iter_succ, Pos2Z.inj_xO, IH, Pos2Z.inj_succ, Z.pow_succ_r; lia.
Qed.

(** adding a non-negative number to a non-negative number does not make
    it smaller, after rounding *)
Lemma SFadd_nonneg_ge (x y : spec_float) :
  valid_binary x = true → valid_binary y = true →
  SFleb (S754_zero false) x = true → SFleb (S754_zero false) y = true →
  SFleb x (SF64add x y) = true.
Proof.
  destruct x as [sx|[]| |[] mx ex], y as [sy|[]| |[] my ey]; try done;
    intros Vx Vy _ _.
  - by destruct sx, sy.
  - cbn. unfold SFleb. cbn.
    change (Pos.compare_cont Eq) with Pos.compare.
    by rewrite Z.compare_refl, Pos.compare_refl.
  - cbn [valid_binary] in Vx, Vy. unfold bounded in Vx, Vy.
    apply andb_prop in Vx as [Cx _]. apply andb_prop in Vy as [Cy _].
    unfold SF64add, SFadd. cbn [cond_Zopp Z.add binary_normalize].
    pose proof Cx as Ex. pose proof Cy as Ey.
    apply Z.eqb_eq in Ex, Ey.
    apply binary_round_ge; [done| |].
    + unfold fexp, SpecFloat.emin, prec, emax in *. lia.
    + rewrite Pos2Z.inj_add, (shl_align_fst mx ex) by lia. lia.
Qed.

End Addition.

Lemma F_add_nonneg_ge (x y : float) :
  F.le 0 x = true → F.le 0 y = true → F.le x (x + y)%float = true.
Proof.
  unfold F.le. rewrite !leb_spec, add_spec.
  change (Prim2SF 0%float) with (S754_zero false).
  apply SFadd_nonneg_ge; apply Prim2SF_valid.
Qed.

(** ** [argmax] of a boolean array *)

Section Argmax.

Lemma argmax_from_true besti i bs : argmax_from true besti i bs = besti.
Proof. revert i. induction bs as [|b bs IH]; intros i; cbn; [done|apply IH]. Qed.

(** From a running maximum [False], the scan ends on the first [True],
    or keeps [besti] when there is none. *)
Lemma argmax_from_false besti i bs :
  (Forall (λ b, b = false) bs ∧ argmax_from false besti i bs = besti)
  ∨ (∃ k, bs !! k = Some true ∧ (∀ j, (j < k)%nat → bs !! j = Some false)
          ∧ argmax_from false besti i bs = (i + k)%nat).
Proof.
  revert i. induction bs as [|b bs IH]; intros i; cbn.
  - left. by split.
  - destruct b; cbn.
    + right. exists 0%nat. rewrite argmax_from_true.
      split; [done|]. split; [lia|]. lia.
    + destruct (IH (S i)) as [[Hall ->]|(k & Hk & Hlt & ->)].
      * left. split; [by constructor|done].
      * right. exists (S k). split; [done|]. split; [|lia].
        intros [|j] Hj; cbn; [done|]. apply Hlt. lia.
Qed.

(** [argmax] never raises on a non-empty array; it returns the index of
    the first [True], and [0] when every entry is [False]. *)
Lemma argmax_spec bs :
  bs ≠ [] →
  ∃ k, argmax bs = Ok k ∧ (k < length bs)%nat ∧
       ((bs !! k = Some true ∧ ∀ j, (j < k)%nat → bs !! j = Some false)
        ∨ (k = 0%nat ∧ Forall (λ b, b = false) bs)).
Proof.
  destruct bs as [|b bs]; [done|]. intros _. cbn.
  destruct b.
  - exists 0%nat. rewrite argmax_from_true. split; [done|].
    split; [lia|]. left. split; [done|]. lia.
  - destruct (argmax_from_false 0 1 bs) as [[Hall ->]|(k & Hk & Hlt & ->)].
    + exists 0%nat. split; [done|]. split; [lia|]. right.
      split; [done|]. by constructor.
    + exists (S k). split; [done|].
      apply lookup_lt_Some in Hk as Hlen.
      split; [lia|]. left. split; [done|].
      intros [|j] Hj; cbn; [done|]. apply Hlt. lia.
Qed.

Lemma cumsum_from_length acc a : length (cumsum_from acc a) = length a.
Proof. revert acc. induction a as [|x a IH]; intros acc; cbn; [done|]. by rewrite IH. Qed.

Lemma cumsum_length a : length (cumsum a) = length a.
Proof. destruct a; cbn; [done|]. by rewrite cumsum_from_length. Qed.

End Argmax.

(** ** The categorical sampler *)

Section Sampler.

Lemma nondecreasing_lookup cs j k a b :
  nondecreasing cs = true → (j < k)%nat →
  cs !! j = Some a → cs !! k = Some b → F.le a b = true.
Proof.
  revert j k a b. induction cs as [|a0 cs IH]; intros j k a b Hnd Hjk Hj Hk.
  - done.
  - destruct k as [|k]; [lia|]. cbn in Hk.
    destruct cs as [|b0 cs]; [done|].
    cbn [nondecreasing] in Hnd. apply andb_prop in Hnd as [Hab Hnd].
    destruct j as [|j]; cbn in Hj.
    + simplify_eq. destruct k as [|k]; cbn in Hk.
      * by simplify_eq.
      * apply (F_le_trans _ b0); [done|].
        apply (IH 0%nat (S k)); [done|lia|done|done].
    + apply (IH j k); [done|lia|done|done].
Qed.

(** the cumulative sums of non-negative entries never decrease *)
Lemma cumsum_from_nondecreasing acc a :
  F.le 0 acc = true → Forall (λ x, F.le 0 x = true) a →
  nondecreasing (acc :: cumsum_from acc a) = true.
Proof.
  revert acc. induction a as [|x a IH]; intros acc Hacc Ha; [done|].
  apply Forall_cons in Ha as [Hx Ha].
  cbn [cumsum_from nondecreasing].
  pose proof (F_add_nonneg_ge acc x Hacc Hx) as Hle.
  rewrite Hle. cbn [andb]. apply IH; [|done].
  by apply (F_le_trans _ acc).
Qed.

Lemma cumsum_nondecreasing p :
  Forall (λ x, F.le 0 x = true) p → nondecreasing (cumsum p) = true.
Proof.
  destruct p as [|x p]; [done|]. intros [Hx Hp]%Forall_cons.
  by apply cumsum_from_nondecreasing.
Qed.

(** when the last cumulative sum is a number, all of them are *)
Lemma cumsum_from_numbers acc a t :
  last (acc :: cumsum_from acc a) = Some t → F.le t t = true →
  Forall (λ c, F.le c c = true) (acc :: cumsum_from acc a).
Proof.
  revert acc. induction a as [|x a IH]; intros acc Hlast Ht.
  - cbn in *. simplify_eq. by repeat constructor.
  - cbn [cumsum_from] in *. rewrite last_cons_cons in Hlast.
    specialize (IH _ Hlast Ht). constructor; [|done].
    apply Forall_inv in IH. by apply (F_add_number_l acc x).
Qed.

Lemma cumsum_numbers p t c :
  last (cumsum p) = Some t → F.le t t = true →
  c ∈ cumsum p → F.le c c = true.
Proof.
  destruct p as [|x p]; [done|]. cbn [cumsum]. intros Hlast Ht Hc.
  pose proof (cumsum_from_numbers x p t Hlast Ht) as Hall.
  rewrite Forall_forall in Hall. by apply Hall.
Qed.

(** What the sampler returns on a non-empty vector: the index of the
    first cumulative sum above the draw, or 0 when there is none. *)
Lemma categorical_sample_spec (p : list float) (draw : float) :
  p ≠ [] →
  ∃ i, categorical_sample p draw = Ok i ∧ (i < length p)%nat ∧
    (((∃ c, cumsum p !! i = Some c ∧ F.gt c draw = true) ∧
      (∀ j c, (j < i)%nat → cumsum p !! j = Some c → F.gt c draw = false))
     ∨ (i = 0%nat ∧ ∀ c, c ∈ cumsum p → F.gt c draw = false)).
Proof.
  intros Hp. unfold categorical_sample.
  destruct (argmax_spec (map (λ c, F.gt c draw) (cumsum p)))
    as (k & Hk & Hlen & Hcase).
  { intros E. apply (f_equal length) in E.
    rewrite length_map, cumsum_length in E. by destruct p. }
  rewrite length_map, cumsum_length in Hlen.
  exists k. split; [done|]. split; [done|].
  destruct Hcase as [[Ht Hf]|[-> Hall]].
  - left. split.
    + rewrite list_lookup_fmap in Ht.
      destruct (cumsum p !! k) as [c|]; [|done].
      exists c. split; [done|]. by injection Ht.
    + intros j c Hj Hc. specialize (Hf j Hj).
      rewrite list_lookup_fmap, Hc in Hf. by injection Hf.
  - right. split; [done|]. intros c Hc.
    rewrite Forall_forall in Hall. apply Hall.
    apply list_elem_of_In, in_map_iff. exists c. split; [done|].
    by apply list_elem_of_In.
Qed.

End Sampler.

(** C2 (as the code has it): on every non-empty probability vector,
    whatever its entries sum to, and for every draw, the sampler raises
    nothing and returns a valid index; when no cumulative sum exceeds the
    draw, the index it returns is 0, the [argmax] of an all-[False]
    array. *)
Theorem categorical_sample_short_sum (p : list float) (draw : float) :
  p ≠ [] →
  ∃ i, categorical_sample p draw = Ok i ∧ (i < length p)%nat ∧
       ((∀ c, c ∈ cumsum p → F.gt c draw = false) → i = 0%nat).
Proof.
  intros Hp.
  destruct (categorical_sample_spec p draw Hp) as (i & Hi & Hlen & Hcase).
  exists i. split; [done|]. split; [done|]. intros Hall.
  destruct Hcase as [[(c & Hc & Hgt) _]|[-> _]]; [|done].
  rewrite (Hall c) in Hgt; [done|]. by eapply list_elem_of_lookup_2.
Qed.

Lemma categorical_sample_short_sum_witness :
  ∃ i, categorical_sample [0.5%float; 0.25%float] 0.875%float = Ok i
       ∧ (i < 2)%nat
       ∧ ((∀ c, c ∈ cumsum [0.5%float; 0.25%float] → F.gt c 0.875%float = false)
          → i = 0%nat).
Proof. apply (categorical_sample_short_sum [0.5%float; 0.25%float]). done. Defined.

(** C2, as stated, fails: seven equal weights [1/7] sum in binary64 to
    [1 - 2^-52]; the draw [1 - 2^-53] lies above every cumulative sum, and
    the sampler returns index 0, not the last index 6. *)
Lemma categorical_sample_no_last_index_fallback :
  let p := repeat (1 / 7)%float 7 in
  let draw := 0x1.fffffffffffffp-1%float in
  F.unit_draw draw
  ∧ last (cumsum p) = Some 0x1.ffffffffffffep-1%float
  ∧ F.lt 0x1.ffffffffffffep-1%float draw = true
  ∧ Forall (λ c, F.gt c draw = false) (cumsum p)
  ∧ categorical_sample p draw = Ok 0%nat
  ∧ categorical_sample p draw ≠ Ok (length p - 1)%nat.
Proof.
  cbv zeta. split; [by split|]. split; [by vm_compute|]. split; [done|].
  split; [|split; [by vm_compute|by vm_compute]].
  repeat constructor; by vm_compute.
Qed.

(** C9: for a probability vector (non-negative entries whose cumulative
    sums end in 1) and a draw of [[0,1)], the sampler returns the smallest
    index [i] with [cs[i] > draw]; it is the one index with
    [cs[i-1] <= draw < cs[i]], taking [cs[-1] = 0]. *)
Theorem categorical_sample_inverse_cdf (p : list float) (draw : float) :
  probability_vector p → F.unit_draw draw →
  ∃ i c, categorical_sample p draw = Ok i
    ∧ cumsum p !! i = Some c
    ∧ F.gt c draw = true
    ∧ (∀ j c', (j < i)%nat → cumsum p !! j = Some c' → F.gt c' draw = false)
    ∧ F.le (cs_before (cumsum p) i) draw = true ∧ F.lt draw c = true
    ∧ (∀ j c', cumsum p !! j = Some c' →
         F.le (cs_before (cumsum p) j) draw = true → F.lt draw c' = true →
         j = i).
Proof.
  intros [Hnonneg Hlast] [H0 H1].
  pose proof (cumsum_nondecreasing p Hnonneg) as Hnd.
  assert (Hp : p ≠ []) by (intros ->; done).
  destruct (categorical_sample_spec p draw Hp) as (i & Hi & Hlen & Hcase).
  destruct Hcase as [[(c & Hc & Hgt) Hmin]|[_ Hall]]; cycle 1.
  { apply last_Some_elem_of, Hall in Hlast.
    unfold F.gt, F.lt in *. congruence. }
  exists i, c. split; [done|]. split; [done|]. split; [done|].
  split; [done|].
  assert (Hdraw : F.le draw draw = true) by by eapply F_le_number_r.
  assert (Hbefore : ∀ j a, (j < i)%nat → cumsum p !! j = Some a →
                           F.le a draw = true).
  { intros j a Hj Ha. apply F_not_lt_ge; [done| |by apply (Hmin j)].
    apply (cumsum_numbers p 1%float); [done|done|].
    by eapply list_elem_of_lookup_2. }
  split; [|split; [done|]].
  - destruct i as [|k]; cbn; [done|].
    destruct (cumsum p !! k) as [a|] eqn:Ha; cbn.
    + by apply (Hbefore k); [lia|].
    + apply lookup_ge_None in Ha. apply lookup_lt_Some in Hc. lia.
  - intros j c' Hc' Hle Hlt.
    destruct (Nat.lt_trichotomy j i) as [Hji|[->|Hij]]; [|done|].
    + apply F_lt_not_ge in Hlt. by rewrite (Hbefore j c') in Hlt.
    + destruct j as [|k]; [lia|]. cbn in Hle.
      destruct (cumsum p !! k) as [a|] eqn:Ha; cycle 1.
      { apply lookup_ge_None in Ha. apply lookup_lt_Some in Hc'. lia. }
      cbn in Hle. assert (Hda : F.lt draw a = true).
      { destruct (decide (k = i)) as [->|Hne]; [simplify_eq; exact Hgt|].
        apply (F_lt_le_trans _ c); [done|].
        apply (nondecreasing_lookup (cumsum p) i k); [done|lia|done|done]. }
      apply F_lt_not_ge in Hda. unfold F.le in *. congruence.
Qed.

Lemma categorical_sample_inverse_cdf_witness :
  let p := [0.25%float; 0.5%float; 0.25%float] in
  let draw := 0.75%float in
  ∃ i c, categorical_sample p draw = Ok i
    ∧ cumsum p !! i = Some c
    ∧ F.gt c draw = true
    ∧ (∀ j c', (j < i)%nat → cumsum p !! j = Some c' → F.gt c' draw = false)
    ∧ F.le (cs_before (cumsum p) i) draw = true ∧ F.lt draw c = true
    ∧ (∀ j c', cumsum p !! j = Some c' →
         F.le (cs_before (cumsum p) j) draw = true → F.lt draw c' = true →
         j = i).
Proof.
  apply (categorical_sample_inverse_cdf [0.25%float; 0.5%float; 0.25%float]).
  - split; [|reflexivity]. repeat constructor.
  - split; reflexivity.
Defined.

(** ** The grid world: coordinates *)

Section Coordinates.

Import GridWorld.

Lemma assert_true (c : bool) : c = true → assert c = Ok tt.
Proof. by intros ->. Qed.

Lemma assert_false (c : bool) : c = false → assert c = Raise AssertionError.
Proof. by intros ->. Qed.

Lemma ind2coord_ok (n index : Z) :
  0 <= index → n ≠ 0 → ind2coord n index = Ok (index mod n, index / n).
Proof.
  intros Hi Hn. unfold ind2coord.
  rewrite assert_true by lia. cbn.
  by destruct (Z.eqb_spec n 0).
Qed.

Lemma coord2ind_ok (n row col : Z) :
  row < n → col < n → coord2ind n (row, col) = Ok (col * n + row).
Proof.
  intros Hr Hc. unfold coord2ind.
  rewrite (assert_true (row <? n)) by lia. cbn.
  by rewrite (assert_true (col <? n)) by lia.
Qed.

Lemma coord2ind_raises (n row col : Z) :
  n <= row ∨ n <= col → coord2ind n (row, col) = Raise AssertionError.
Proof.
  intros H. unfold coord2ind.
  destruct (Z.ltb_spec row n) as [Hr|Hr]; cbn; [|done].
  destruct (Z.ltb_spec col n) as [Hc|Hc]; cbn; [lia|done].
Qed.

(** decoding an index of the grid gives a coordinate of the grid *)
Lemma ind2coord_in_grid (n index : Z) :
  0 < n → 0 <= index < n ^ 2 →
  0 <= index mod n < n ∧ 0 <= index / n < n.
Proof.
  intros Hn Hi. split; [apply Z.mod_pos_bound; lia|].
  split; [apply Z.div_pos; lia|].
  apply Z.div_lt_upper_bound; lia.
Qed.

End Coordinates.

(** C7: on a grid of size [n >= 1], [ind2coord] sends an index [i] of
    [[0, n^2)] to [(row, col) = (i % n, i // n)], a coordinate of the grid,
    and [coord2ind] sends it back to [col * n + row = i]. *)
Theorem coord2ind_ind2coord (n i : Z) :
  0 < n → 0 <= i < n ^ 2 →
  GridWorld.ind2coord n i = Ok (i mod n, i / n)
  ∧ (0 <= i mod n < n ∧ 0 <= i / n < n)
  ∧ GridWorld.coord2ind n (i mod n, i / n) = Ok ((i / n) * n + i mod n)
  ∧ (GridWorld.ind2coord n i ≫= GridWorld.coord2ind n) = Ok i.
Proof.
  intros Hn Hi.
  destruct (ind2coord_in_grid n i Hn Hi) as [Hrow Hcol].
  assert (Hback : GridWorld.coord2ind n (i mod n, i / n) = Ok i).
  { rewrite coord2ind_ok by lia. f_equal.
    rewrite (Z.div_mod i n) at 3 by lia. lia. }
  split; [apply ind2coord_ok; lia|]. split; [done|].
  split; [apply coord2ind_ok; lia|].
  rewrite ind2coord_ok by lia. exact Hback.
Qed.

Lemma coord2ind_ind2coord_witness :
  GridWorld.ind2coord 3 7 = Ok (7 mod 3, 7 / 3)
  ∧ (0 <= 7 mod 3 < 3 ∧ 0 <= 7 / 3 < 3)
  ∧ GridWorld.coord2ind 3 (7 mod 3, 7 / 3) = Ok ((7 / 3) * 3 + 7 mod 3)
  ∧ (GridWorld.ind2coord 3 7 ≫= GridWorld.coord2ind 3) = Ok 7.
Proof. apply (coord2ind_ind2coord 3 7); lia. Defined.

(** C6 (as the code has it): [_step] fails its assertion on an action
    outside the action set; [ind2coord] fails its assertion exactly on a
    negative index, there is no upper bound; [coord2ind] fails its
    assertions exactly when the row or the column is [n] or more, there is
    no lower bound. *)
Theorem invalid_inputs_assertions :
  (∀ self action draw sampled,
     Discrete_contains 4 action = false →
     GridWorld._step self action draw sampled = Raise AssertionError)
  ∧ (∀ n index, GridWorld.ind2coord n index = Raise AssertionError ↔ index < 0)
  ∧ (∀ n row col,
       GridWorld.coord2ind n (row, col) = Raise AssertionError
       ↔ n <= row ∨ n <= col).
Proof.
  split; [|split].
  - intros self action draw sampled H. unfold GridWorld._step.
    by rewrite assert_false.
  - intros n index. unfold GridWorld.ind2coord. split.
    + destruct (Z.geb_spec index 0) as [Hi|Hi]; cbn; [|lia].
      by destruct (n =? 0).
    + intros Hi. rewrite assert_false; [done|lia].
  - intros n row col. split; [|apply coord2ind_raises].
    intros H. destruct (Z.lt_ge_cases row n) as [Hr|Hr]; [|lia].
    destruct (Z.lt_ge_cases col n) as [Hc|Hc]; [|lia].
    by rewrite coord2ind_ok in H.
Qed.

(** C6, as stated, fails: the index 100 is far outside a 3 x 3 grid and is
    decoded all the same, and a negative row is encoded into a negative
    index. *)
Lemma out_of_range_accepted :
  GridWorld.ind2coord 3 100 = Ok (1, 33)
  ∧ GridWorld.coord2ind 3 (-1, 0) = Ok (-1).
Proof. split; reflexivity. Qed.

(** ** The grid world: steps *)

Section GridSteps.

Import GridWorld.

(** a draw of [[0,1)] is never below a noise of 0 *)
Lemma no_noise (draw : float) : F.le 0 draw = true → F.lt draw 0 = false.
Proof.
  intros H. destruct (F.lt draw 0) eqn:E; [|done].
  apply F_lt_not_ge in E. congruence.
Qed.

(** the step out of the terminal cell *)
Lemma step_terminal self action draw sampled :
  Discrete_contains 4 action = true →
  self.(state) = terminal_state self.(cfg) →
  _step self action draw sampled =
    Ok (Env self.(cfg) (absorbing_state self.(cfg)) true,
        (absorbing_state self.(cfg), self.(cfg).(terminal_reward), true, None)).
Proof.
  intros Ha Hs. unfold _step. rewrite assert_true by done. cbn.
  rewrite Hs, Z.eqb_refl. reflexivity.
Qed.

(** every other step, once the state is decoded *)
Lemma step_nonterminal self action draw sampled row col :
  Discrete_contains 4 action = true →
  self.(state) ≠ terminal_state self.(cfg) →
  ind2coord self.(cfg).(n) self.(state) = Ok (row, col) →
  _step self action draw sampled =
    (let action := if F.lt draw self.(cfg).(noise) then sampled else action in
     new_state ← coord2ind self.(cfg).(n) (move self.(cfg).(n) action row col);
     reward ← _get_reward self (Some new_state);
     Ok (Env self.(cfg) new_state self.(done),
         (new_state, reward, self.(done), None))).
Proof.
  intros Ha Hs Hrc. unfold _step. rewrite assert_true by done. cbn.
  destruct (Z.eqb_spec self.(state) (terminal_state self.(cfg))); [done|].
  rewrite Hrc. cbn.
  by destruct (move _ _ row col).
Qed.

(** the reward of a step of a running episode: the base reward, overridden
    by the border reward, overridden by the bump reward *)
Lemma get_reward_running self new_state row col :
  self.(done) = false →
  ind2coord self.(cfg).(n) self.(state) = Ok (row, col) →
  _get_reward self (Some new_state) =
    Ok (if F.ne self.(cfg).(bump_reward) 0 && (self.(state) =? new_state)
        then self.(cfg).(bump_reward)
        else if F.ne self.(cfg).(border_reward) 0
                && ((row =? 0) || (row =? self.(cfg).(n) - 1)
                    || (col =? 0) || (col =? self.(cfg).(n) - 1))
        then self.(cfg).(border_reward)
        else self.(cfg).(step_reward)).
Proof.
  intros Hd Hrc. unfold _get_reward, at_border, state_is.
  rewrite Hd, Hrc. cbn.
  destruct (F.ne _.(border_reward) 0); cbn; reflexivity.
Qed.

Lemma move_in_grid n action row col :
  0 <= row < n → 0 <= col < n →
  0 <= (move n action row col).1 < n ∧ 0 <= (move n action row col).2 < n.
Proof.
  intros Hr Hc. unfold move.
  repeat case_match; cbn; lia.
Qed.

(** a step from a cell of the grid other than the terminal one returns,
    and stays on the grid *)
Lemma step_in_grid self action draw sampled :
  0 < self.(cfg).(n) → 0 <= self.(state) < self.(cfg).(n) ^ 2 →
  Discrete_contains 4 action = true →
  self.(state) ≠ terminal_state self.(cfg) →
  ∃ new_state reward,
    _get_reward self (Some new_state) = Ok reward
    ∧ 0 <= new_state < self.(cfg).(n) ^ 2
    ∧ _step self action draw sampled =
        Ok (Env self.(cfg) new_state self.(done),
            (new_state, reward, self.(done), None)).
Proof.
  intros Hn Hs Ha Ht.
  destruct (ind2coord_in_grid _ _ Hn Hs) as [Hrow Hcol].
  pose proof (ind2coord_ok self.(cfg).(n) self.(state)) as Hrc.
  rewrite (step_nonterminal _ _ _ _ _ _ Ha Ht (Hrc ltac:(lia) ltac:(lia))).
  cbv zeta.
  set (act := if F.lt draw _ then sampled else action).
  destruct (move_in_grid self.(cfg).(n) act _ _ Hrow Hcol) as [Hr' Hc'].
  destruct (move _ act _ _) as [row' col'] eqn:Hm. cbn in Hr', Hc'.
  rewrite coord2ind_ok by lia. cbn.
  assert (Hrw : ∃ reward, _get_reward self (Some (col' * n (cfg self) + row'))
                          = Ok reward).
  { destruct (done self) eqn:Hd.
    - unfold _get_reward. rewrite Hd. eauto.
    - erewrite get_reward_running by (done || apply Hrc; lia). eauto. }
  destruct Hrw as [reward Hrw]. exists (col' * n (cfg self) + row'), reward.
  split; [done|]. split; [nia|]. by rewrite Hrw.
Qed.

End GridSteps.

(** C5: a step of a running episode from a cell of the grid other than the
    terminal one returns [step_reward]; [border_reward] instead when that
    reward is non-zero and the cell the step starts from is on the border
    (row or column 0 or [n - 1]); and [bump_reward] instead of either when
    that reward is non-zero and the new state is the state the step
    started from. *)
Theorem step_reward_precedence
    (self : GridWorld.env) (action : Z) (draw : float) (sampled : Z) :
  let c := self.(GridWorld.cfg) in
  0 < c.(GridWorld.n) →
  0 <= self.(GridWorld.state) < c.(GridWorld.n) ^ 2 →
  self.(GridWorld.done) = false →
  self.(GridWorld.state) ≠ GridWorld.terminal_state c →
  Discrete_contains 4 action = true →
  ∃ row col new_state,
    GridWorld.ind2coord c.(GridWorld.n) self.(GridWorld.state) = Ok (row, col)
    ∧ GridWorld._step self action draw sampled =
        Ok (GridWorld.Env c new_state false,
            (new_state,
             (if F.ne c.(GridWorld.bump_reward) 0
                 && (new_state =? self.(GridWorld.state))
              then c.(GridWorld.bump_reward)
              else if F.ne c.(GridWorld.border_reward) 0
                      && ((row =? 0) || (row =? c.(GridWorld.n) - 1)
                          || (col =? 0) || (col =? c.(GridWorld.n) - 1))
              then c.(GridWorld.border_reward)
              else c.(GridWorld.step_reward)),
             false, None)).
Proof.
  intros c Hn Hs Hd Ht Ha. subst c.
  destruct (step_in_grid self action draw sampled Hn Hs Ha Ht)
    as (new_state & reward & Hrw & _ & Hstep).
  exists (self.(GridWorld.state) mod self.(GridWorld.cfg).(GridWorld.n)),
         (self.(GridWorld.state) / self.(GridWorld.cfg).(GridWorld.n)),
         new_state.
  assert (Hrc := ind2coord_ok self.(GridWorld.cfg).(GridWorld.n)
                   self.(GridWorld.state) ltac:(lia) ltac:(lia)).
  split; [done|].
  rewrite (get_reward_running _ _ _ _ Hd Hrc) in Hrw.
  rewrite Hstep, Hd. rewrite (Z.eqb_sym new_state). by simplify_eq.
Qed.

Lemma step_reward_precedence_witness :
  ∃ row col new_state,
    GridWorld.ind2coord 10 0 = Ok (row, col)
    ∧ GridWorld._step (GridWorld.Env GridWorld.default 0 false) LEFT 0.5%float 0 =
        Ok (GridWorld.Env GridWorld.default new_state false,
            (new_state,
             (if F.ne (-0.5)%float 0 && (new_state =? 0)
              then (-0.5)%float
              else if F.ne 0%float 0
                      && ((row =? 0) || (row =? 10 - 1)
                          || (col =? 0) || (col =? 10 - 1))
              then 0%float
              else 0%float),
             false, None)).
Proof.
  apply (step_reward_precedence (GridWorld.Env GridWorld.default 0 false)
           LEFT 0.5%float 0); cbn; (lia || done).
Defined.

Section Episode.

Import GridWorld.

(** a reward computed by the running branch of [_get_reward] *)
Lemma get_reward_running_cases self new_state reward :
  self.(done) = false →
  _get_reward self new_state = Ok reward →
  reward = self.(cfg).(step_reward)
  ∨ reward = self.(cfg).(border_reward)
  ∨ reward = self.(cfg).(bump_reward).
Proof.
  intros Hd. unfold _get_reward. rewrite Hd.
  destruct (F.ne _.(border_reward) 0); cbn.
  - destruct (at_border self) as [[]|]; cbn; [| |done];
      destruct (_ && _); intros; simplify_eq; auto.
  - destruct (_ && _); intros; simplify_eq; auto.
Qed.

(** a step of a running episode that does not start on the terminal
    cell leaves the episode running, whatever cell it arrives on *)
Lemma step_running self action draw sampled self' r :
  self.(done) = false →
  self.(state) ≠ terminal_state self.(cfg) →
  _step self action draw sampled = Ok (self', r) →
  self'.(cfg) = self.(cfg) ∧ self'.(done) = false
  ∧ r.1.2 = false
  ∧ (r.1.1.2 = self.(cfg).(step_reward)
     ∨ r.1.1.2 = self.(cfg).(border_reward)
     ∨ r.1.1.2 = self.(cfg).(bump_reward)).
Proof.
  intros Hd Ht. unfold _step.
  destruct (Discrete_contains 4 action); cbn; [|done].
  destruct (Z.eqb_spec self.(state) (terminal_state self.(cfg))); [done|].
  destruct (ind2coord _ _) as [[row col]|]; cbn; [|done].
  destruct (move _ _ row col) as [row' col'].
  destruct (row' <? _); cbn; [|done].
  destruct (col' <? _); cbn; [|done].
  destruct (_get_reward self (Some _)) as [reward|] eqn:Hrw; cbn; [|done].
  intros; simplify_eq. cbn.
  split; [done|]. split; [done|]. split; [done|].
  by eapply get_reward_running_cases.
Qed.

End Episode.

(** C4: from the terminal cell every valid action leads to the absorbing
    state, sets [done] and returns
    [(absorbing_state, terminal_reward, True, None)].  Within an episode
    (the steps from a state with [done] unset up to the first that returns
    [done]) the step that starts on the terminal cell is the one that
    returns [done] and the terminal reward, and it is the last; every
    other step, the one that arrives on the terminal cell included,
    returns [done] unset and a step, border or bump reward. *)
Theorem terminal_reward_on_departure :
  (∀ self action draw sampled,
     Discrete_contains 4 action = true →
     self.(GridWorld.state) = GridWorld.terminal_state self.(GridWorld.cfg) →
     GridWorld._step self action draw sampled =
       Ok (GridWorld.Env self.(GridWorld.cfg)
             (GridWorld.absorbing_state self.(GridWorld.cfg)) true,
           (GridWorld.absorbing_state self.(GridWorld.cfg),
            self.(GridWorld.cfg).(GridWorld.terminal_reward), true, None)))
  ∧ (∀ ins self k pre r,
       self.(GridWorld.done) = false →
       GridWorld.episode self ins !! k = Some (pre, r) →
       let c := self.(GridWorld.cfg) in
       if decide (pre = GridWorld.terminal_state c)
       then r = (GridWorld.absorbing_state c, c.(GridWorld.terminal_reward),
                 true, None)
            ∧ length (GridWorld.episode self ins) = S k
       else r.1.2 = false
            ∧ (r.1.1.2 = c.(GridWorld.step_reward)
               ∨ r.1.1.2 = c.(GridWorld.border_reward)
               ∨ r.1.1.2 = c.(GridWorld.bump_reward))).
Proof.
  split; [apply step_terminal|].
  induction ins as [|[[action draw] sampled] ins IH]; intros self k pre r Hd Hk;
    [done|].
  cbn [GridWorld.episode] in *.
  destruct (GridWorld._step self action draw sampled) as [[self' r']|] eqn:Hstep;
    [|done].
  destruct (decide (self.(GridWorld.state)
                    = GridWorld.terminal_state self.(GridWorld.cfg))) as [Ht|Ht].
  - (* the step out of the terminal cell ends the episode *)
    assert (Ha : Discrete_contains 4 action = true).
    { unfold GridWorld._step in Hstep.
      by destruct (Discrete_contains 4 action). }
    rewrite (step_terminal _ _ _ _ Ha Ht) in Hstep. simplify_eq. cbn in *.
    destruct k as [|k]; [|done]. cbn in Hk. simplify_eq.
    by rewrite decide_True.
  - destruct (step_running _ _ _ _ _ _ Hd Ht Hstep) as (Hc & Hd' & Hr & Hrw).
    rewrite Hr in *.
    destruct k as [|k]; cbn in Hk.
    + simplify_eq. by rewrite decide_False.
    + specialize (IH self' k pre r Hd' Hk). rewrite Hc in IH.
      cbv zeta in *. destruct (decide _); [|done].
      destruct IH as [-> IH]. split; [done|]. cbn. by rewrite IH.
Qed.

(** C3 (as the code has it): for [GridWorld(n=3, noise=0, start_state=0,
    terminal_state_offset=1)] the terminal state is
    [n_states - 2 - 1 = 7], which is [n^2 - 1 - terminal_state_offset], and
    the absorbing state is 9; the constructor and [reset()] leave the state
    at 0; [step(RIGHT)] from state 0 returns the state
    [coord2ind(0, 1) = 3] with the reward [step_reward = 0.0] and [done]
    unset. *)
Theorem scenario_3x3_run :
  let c := GridWorld.scenario_3x3 in
  GridWorld.terminal_state c = 7
  ∧ GridWorld.absorbing_state c = 9
  ∧ (∀ c', GridWorld.terminal_state c'
           = c'.(GridWorld.n) ^ 2 - 1 - c'.(GridWorld.terminal_state_offset))
  ∧ GridWorld.coord2ind 3 (0, 1) = Ok 3
  ∧ ∀ drawn,
      GridWorld.__init__ c drawn = Ok (GridWorld.Env c 0 false)
      ∧ GridWorld._reset (GridWorld.Env c 0 false) drawn
        = Ok (GridWorld.Env c 0 false, 0)
      ∧ ∀ draw sampled,
          F.le 0 draw = true →
          GridWorld._step (GridWorld.Env c 0 false) RIGHT draw sampled
          = Ok (GridWorld.Env c 3 false, (3, 0%float, false, None)).
Proof.
  cbv zeta. split; [done|]. split; [done|].
  split; [intros c'; unfold GridWorld.terminal_state, GridWorld.n_states; lia|].
  split; [done|]. intros drawn. split; [done|]. split; [done|].
  intros draw sampled Hdraw.
  rewrite (step_nonterminal _ _ _ _ 0 0); [|done|done|done].
  cbn [GridWorld.cfg GridWorld.noise GridWorld.scenario_3x3].
  rewrite (no_noise draw Hdraw). reflexivity.
Qed.

(** C3, as stated, fails: the terminal state of the scenario is 7, not 6;
    cell 6 is an ordinary cell, and a step from it does not end the
    episode. *)
Lemma scenario_3x3_terminal_state_is_not_6 :
  GridWorld.terminal_state GridWorld.scenario_3x3 = 7
  ∧ GridWorld.terminal_state GridWorld.scenario_3x3 ≠ 6
  ∧ GridWorld._step (GridWorld.Env GridWorld.scenario_3x3 6 false) UP 0.5%float 0
    = Ok (GridWorld.Env GridWorld.scenario_3x3 6 false,
          (6, (-0.5)%float, false, None)).
Proof. split; [done|]. split; [done|]. reflexivity. Qed.

(** C10: on a grid of size [n >= 1] whose terminal state is not the
    absorbing one, [ind2coord] decodes the absorbing state [n^2] to row 0
    and column [n]; with [noise = 0] a step from it with [LEFT] or [RIGHT]
    returns the state [(n - 1) * n] of the grid, row 0 of column [n - 1],
    and a step with [UP] or [DOWN] keeps the column [n] and fails the
    assertion of [coord2ind]. *)
Theorem absorbing_state_off_grid
    (self : GridWorld.env) (action : Z) (draw : float) (sampled : Z) :
  let c := self.(GridWorld.cfg) in
  0 < c.(GridWorld.n) →
  c.(GridWorld.noise) = 0%float → F.le 0 draw = true →
  self.(GridWorld.state) = GridWorld.absorbing_state c →
  GridWorld.terminal_state c ≠ GridWorld.absorbing_state c →
  GridWorld.absorbing_state c = c.(GridWorld.n) ^ 2
  ∧ GridWorld.ind2coord c.(GridWorld.n) (GridWorld.absorbing_state c)
    = Ok (0, c.(GridWorld.n))
  ∧ (action = LEFT ∨ action = RIGHT →
     ∃ reward,
       GridWorld._step self action draw sampled
       = Ok (GridWorld.Env c ((c.(GridWorld.n) - 1) * c.(GridWorld.n))
               self.(GridWorld.done),
             ((c.(GridWorld.n) - 1) * c.(GridWorld.n), reward,
              self.(GridWorld.done), None))
       ∧ GridWorld.ind2coord c.(GridWorld.n)
           ((c.(GridWorld.n) - 1) * c.(GridWorld.n))
         = Ok (0, c.(GridWorld.n) - 1)
       ∧ 0 <= (c.(GridWorld.n) - 1) * c.(GridWorld.n) < c.(GridWorld.n) ^ 2)
  ∧ (action = UP ∨ action = DOWN →
     (GridWorld.move c.(GridWorld.n) action 0 c.(GridWorld.n)).2
     = c.(GridWorld.n)
     ∧ GridWorld.coord2ind c.(GridWorld.n)
         (GridWorld.move c.(GridWorld.n) action 0 c.(GridWorld.n))
       = Raise AssertionError
     ∧ GridWorld._step self action draw sampled = Raise AssertionError).
Proof.
  intros c Hn Hnoise Hdraw Hs Ht. subst c.
  set (c := self.(GridWorld.cfg)) in *. set (n := c.(GridWorld.n)) in *.
  assert (Habs : GridWorld.absorbing_state c = n ^ 2).
  { unfold GridWorld.absorbing_state, GridWorld.n_states. fold n. lia. }
  assert (Hdec : GridWorld.ind2coord n (GridWorld.absorbing_state c) = Ok (0, n)).
  { rewrite Habs, ind2coord_ok by lia. f_equal. f_equal.
    - replace (n ^ 2) with (n * n) by lia. apply Z.mod_mul. lia.
    - replace (n ^ 2) with (n * n) by lia. apply Z.div_mul. lia. }
  split; [done|]. split; [done|].
  assert (Hstep : ∀ a, Discrete_contains 4 a = true →
            GridWorld._step self a draw sampled =
            (new_state ← GridWorld.coord2ind n (GridWorld.move n a 0 n);
             reward ← GridWorld._get_reward self (Some new_state);
             Ok (GridWorld.Env c new_state self.(GridWorld.done),
                 (new_state, reward, self.(GridWorld.done), None)))).
  { intros a Ha.
    rewrite (step_nonterminal self a draw sampled 0 n Ha);
      [|fold c; congruence|].
    - fold c. rewrite Hnoise, (no_noise draw Hdraw). reflexivity.
    - fold c n. by rewrite Hs. }
  split.
  - intros Hact.
    assert (Hmove : GridWorld.move n action 0 n = (0, n - 1)).
    { destruct Hact as [-> | ->]; unfold GridWorld.move; cbn; f_equal; lia. }
    assert (Hrw : ∃ reward, GridWorld._get_reward self
                              (Some ((n - 1) * n + 0)) = Ok reward).
    { destruct (GridWorld.done self) eqn:Hd.
      - unfold GridWorld._get_reward. rewrite Hd. eauto.
      - erewrite get_reward_running; [eauto|done|].
        fold c n. rewrite Hs. exact Hdec. }
    destruct Hrw as [reward Hrw]. exists reward.
    rewrite Hstep by (by destruct Hact as [-> | ->]).
    rewrite Hmove, coord2ind_ok by lia. cbn. rewrite Hrw. cbn.
    rewrite Z.add_0_r. split; [done|]. split; [|nia].
    rewrite ind2coord_ok by nia. f_equal. f_equal.
    + apply Z.mod_mul. lia.
    + apply Z.div_mul. lia.
  - intros Hact.
    assert (Hmove : (GridWorld.move n action 0 n).2 = n).
    { by destruct Hact as [-> | ->]. }
    assert (Hraise : GridWorld.coord2ind n (GridWorld.move n action 0 n)
                     = Raise AssertionError).
    { destruct (GridWorld.move n action 0 n) as [row col]. cbn in Hmove.
      apply coord2ind_raises. lia. }
    split; [done|]. split; [done|].
    rewrite Hstep by (by destruct Hact as [-> | ->]).
    by rewrite Hraise.
Qed.

Lemma absorbing_state_off_grid_witness :
  let self := GridWorld.Env GridWorld.scenario_3x3 9 true in
  (∃ reward, GridWorld._step self LEFT 0.5%float 0
             = Ok (GridWorld.Env GridWorld.scenario_3x3 6 true,
                   (6, reward, true, None)))
  ∧ GridWorld._step self DOWN 0.5%float 0 = Raise AssertionError.
Proof.
  split.
  - destruct (absorbing_state_off_grid
                (GridWorld.Env GridWorld.scenario_3x3 9 true) LEFT 0.5%float 0
                ltac:(done) ltac:(done) ltac:(done) ltac:(done) ltac:(done))
      as (_ & _ & Hl & _).
    destruct (Hl (or_introl eq_refl)) as (reward & Hstep & _).
    exists reward. exact Hstep.
  - destruct (absorbing_state_off_grid
                (GridWorld.Env GridWorld.scenario_3x3 9 true) DOWN 0.5%float 0
                ltac:(done) ltac:(done) ltac:(done) ltac:(done) ltac:(done))
      as (_ & _ & _ & Hd).
    destruct (Hd (or_intror eq_refl)) as (_ & _ & Hstep). exact Hstep.
Defined.

(** C1, on the code: in the 3 x 3 scenario the step out of the terminal
    cell 7 enters the absorbing state 9 and sets [done]; the next
    [step(RIGHT)] returns state 6 with the terminal reward, so the state
    leaves the absorbing state, and [step(UP)] raises [AssertionError].
    The same happens with the default arguments, where [step(LEFT)] leads
    from the absorbing state 100 to state 90. *)
Lemma step_after_done_leaves_absorbing_state :
  let c := GridWorld.scenario_3x3 in
  GridWorld.absorbing_state c = 9
  ∧ GridWorld._step (GridWorld.Env c 7 false) RIGHT 0.5%float 0
    = Ok (GridWorld.Env c 9 true, (9, 1%float, true, None))
  ∧ GridWorld._step (GridWorld.Env c 9 true) RIGHT 0.5%float 0
    = Ok (GridWorld.Env c 6 true, (6, 1%float, true, None))
  ∧ GridWorld._step (GridWorld.Env c 9 true) UP 0.5%float 0
    = Raise AssertionError
  ∧ GridWorld.absorbing_state GridWorld.default = 100
  ∧ GridWorld._step (GridWorld.Env GridWorld.default 100 true) LEFT 0.5%float 0
    = Ok (GridWorld.Env GridWorld.default 90 true, (90, 1%float, true, None)).
Proof. cbv zeta. repeat split; reflexivity. Qed.

(** ** The table-driven engine *)

Section Engine.

Import DiscreteEnv.

Lemma bind_Ok {A B} (a : A) (f : A → result B) : (Ok a ≫= f) = f a.
Proof. reflexivity. Qed.

(** with a first cumulative sum of 1, a draw below 1 selects index 0 *)
Lemma categorical_sample_certain (p : list float) (draw : float) :
  F.lt draw 1 = true → categorical_sample (1%float :: p) draw = Ok 0%nat.
Proof.
  intros H. unfold categorical_sample. cbn [cumsum map argmax].
  unfold F.gt. unfold F.lt in H. rewrite H. by rewrite argmax_from_true.
Qed.

End Engine.

(** C8: [_step(a)] looks up [P[s][a]], samples an index over the
    probabilities of that list, moves to the next state of the chosen
    entry, records the action and returns
    [(next_state, reward, done, {"prob": probability})]; on a non-empty
    list it raises nothing.  In the two-state scenario the constructor and
    [reset()] return state 0, and [step(0)] returns
    [(1, 5.0, True, {"prob": 1.0})], for every draw of [[0,1)]. *)
Theorem engine_step :
  (∀ (self : DiscreteEnv.env) (a : Z) (draw : float) row transitions,
     self.(DiscreteEnv.P) !! self.(DiscreteEnv.s) = Some row →
     row !! a = Some transitions →
     transitions ≠ [] →
     ∃ i p s' r d,
       categorical_sample (map DiscreteEnv.t0 transitions) draw = Ok i
       ∧ transitions !! i = Some (p, s', r, d)
       ∧ DiscreteEnv._step self a draw
         = Ok (DiscreteEnv.Env self.(DiscreteEnv.P) self.(DiscreteEnv.isd)
                 (Some a) self.(DiscreteEnv.nS) self.(DiscreteEnv.nA) s',
               (s', r, d, {[ "prob"%string := p ]})))
  ∧ (∀ draw,
       F.lt draw 1 = true →
       let e := DiscreteEnv.Env DiscreteEnv.scenario_P DiscreteEnv.scenario_isd
                  None 2 1 0 in
       DiscreteEnv.__init__ 2 1 DiscreteEnv.scenario_P DiscreteEnv.scenario_isd
         draw = Ok e
       ∧ DiscreteEnv._reset e draw = Ok (e, 0)
       ∧ DiscreteEnv._step e 0 draw
         = Ok (DiscreteEnv.Env DiscreteEnv.scenario_P DiscreteEnv.scenario_isd
                 (Some 0) 2 1 1,
               (1, 5%float, true, {[ "prob"%string := 1%float ]}))).
Proof.
  split.
  - intros self a draw row transitions Hrow Hts Hne.
    destruct (categorical_sample_spec (map DiscreteEnv.t0 transitions) draw)
      as (i & Hi & Hlen & _).
    { by destruct transitions. }
    rewrite length_map in Hlen.
    destruct (lookup_lt_is_Some_2 transitions i Hlen) as [[[[p s'] r] d] Ht].
    exists i, p, s', r, d. split; [done|]. split; [done|].
    unfold DiscreteEnv._step, DiscreteEnv.getitem, DiscreteEnv.list_getitem.
    rewrite Hrow. cbn. rewrite Hts. cbn. rewrite Hi. cbn. by rewrite Ht.
  - intros draw Hdraw e.
    assert (Hreset : DiscreteEnv._reset e draw = Ok (e, 0)).
    { unfold DiscreteEnv._reset. cbn [DiscreteEnv.isd e].
      unfold DiscreteEnv.scenario_isd.
      by rewrite (categorical_sample_certain _ _ Hdraw). }
    split; [|split; [done|]].
    + unfold DiscreteEnv.__init__. unfold DiscreteEnv._reset.
      cbn [DiscreteEnv.isd]. unfold DiscreteEnv.scenario_isd.
      by rewrite (categorical_sample_certain _ _ Hdraw).
    + unfold DiscreteEnv._step, DiscreteEnv.getitem, DiscreteEnv.list_getitem.
      replace (DiscreteEnv.P e !! DiscreteEnv.s e)
        with (Some ({[ 0 := [(1%float, 1, 5%float, true)] ]}
                    : gmap Z (list DiscreteEnv.transition)))
        by (by vm_compute).
      rewrite bind_Ok, lookup_singleton_eq, bind_Ok.
      change (map DiscreteEnv.t0 [(1%float, 1, 5%float, true)])
        with [1%float].
      by rewrite (categorical_sample_certain _ _ Hdraw).
Qed.

(** * Further properties of the code *)

(** ** Coordinates *)

Section CoordinatesBack.

Import GridWorld.

(** encoding a coordinate of the grid gives an index of the grid that
    decodes to the coordinate *)
Lemma ind2coord_coord2ind_ok (n row col : Z) :
  0 <= row < n → 0 <= col < n →
  0 <= col * n + row < n ^ 2
  ∧ ind2coord n (col * n + row) = Ok (row, col).
Proof.
  intros Hr Hc. split; [nia|].
  rewrite ind2coord_ok by nia. f_equal. f_equal.
  - rewrite Z.add_comm, Z.mod_add by lia. apply Z.mod_small. lia.
  - rewrite Z.add_comm, Z.div_add by lia. rewrite Z.div_small by lia. lia.
Qed.

End CoordinatesBack.

(** X1: [coord2ind] sends a coordinate of the grid to an index of
    [[0, n^2)] that [ind2coord] decodes back to the coordinate; so two
    coordinates of the grid with the same index are the same. *)
Theorem ind2coord_coord2ind (n row col : Z) :
  0 <= row < n → 0 <= col < n →
  (∃ i, GridWorld.coord2ind n (row, col) = Ok i ∧ 0 <= i < n ^ 2
        ∧ GridWorld.ind2coord n i = Ok (row, col))
  ∧ ∀ row' col', 0 <= row' < n → 0 <= col' < n →
      GridWorld.coord2ind n (row', col') = GridWorld.coord2ind n (row, col) →
      (row', col') = (row, col).
Proof.
  intros Hr Hc.
  destruct (ind2coord_coord2ind_ok n row col Hr Hc) as [Hi Hback].
  split.
  - exists (col * n + row). by rewrite coord2ind_ok by lia.
  - intros row' col' Hr' Hc' Heq.
    destruct (ind2coord_coord2ind_ok n row' col' Hr' Hc') as [_ Hback'].
    rewrite !coord2ind_ok in Heq by lia. simplify_eq.
    rewrite Heq in Hback'. congruence.
Qed.

Lemma ind2coord_coord2ind_witness :
  (∃ i, GridWorld.coord2ind 3 (1, 2) = Ok i ∧ 0 <= i < 3 ^ 2
        ∧ GridWorld.ind2coord 3 i = Ok (1, 2))
  ∧ ∀ row' col', 0 <= row' < 3 → 0 <= col' < 3 →
      GridWorld.coord2ind 3 (row', col') = GridWorld.coord2ind 3 (1, 2) →
      (row', col') = (1, 2).
Proof. apply (ind2coord_coord2ind 3 1 2); lia. Defined.

(** ** Moves on the grid *)

Section GridMoves.

Import GridWorld.

Lemma row_col_of (n r c : Z) :
  0 <= r < n → 0 <= c < n → (c * n + r) mod n = r ∧ (c * n + r) / n = c.
Proof.
  intros Hr Hc.
  destruct (ind2coord_coord2ind_ok n r c Hr Hc) as [Hi Hback].
  rewrite ind2coord_ok in Hback by lia. by simplify_eq.
Qed.

Lemma index_of (n s : Z) : 0 < n → s = (s / n) * n + s mod n.
Proof. intros Hn. pose proof (Z.div_mod s n). lia. Qed.

(** the clamped move, encoded, is the shift of the index *)
Lemma move_shifted (n s action : Z) :
  0 < n → 0 <= s < n ^ 2 →
  coord2ind n (move n action (s mod n) (s / n)) = Ok (shifted n s action).
Proof.
  intros Hn Hs.
  destruct (ind2coord_in_grid n s Hn Hs) as [Hr Hc].
  pose proof (index_of n s Hn) as Hidx.
  unfold move, shifted.
  repeat match goal with
         | |- context [?a =? ?b] => destruct (Z.eqb_spec a b)
         end; rewrite coord2ind_ok by lia; f_equal;
    repeat first [ rewrite Z.min_l by lia | rewrite Z.min_r by lia
                 | rewrite Z.max_l by lia | rewrite Z.max_r by lia ]; lia.
Qed.

Lemma shifted_in_grid (n s action : Z) :
  0 < n → 0 <= s < n ^ 2 → 0 <= shifted n s action < n ^ 2.
Proof.
  intros Hn Hs.
  destruct (ind2coord_in_grid n s Hn Hs) as [Hr Hc].
  pose proof (move_in_grid n action _ _ Hr Hc) as [Hr' Hc'].
  pose proof (move_shifted n s action Hn Hs) as Hm.
  destruct (move n action (s mod n) (s / n)) as [r' c']. cbn in Hr', Hc'.
  rewrite coord2ind_ok in Hm by lia. simplify_eq. rewrite <- Hm. nia.
Qed.

(** a step from a cell of the grid other than the terminal one, with its
    new state in index arithmetic *)
Lemma step_shifted self action draw sampled :
  0 < self.(cfg).(n) → 0 <= self.(state) < self.(cfg).(n) ^ 2 →
  Discrete_contains 4 action = true →
  self.(state) ≠ terminal_state self.(cfg) →
  let new_state :=
    shifted self.(cfg).(n) self.(state)
      (if F.lt draw self.(cfg).(noise) then sampled else action) in
  ∃ reward,
    _get_reward self (Some new_state) = Ok reward
    ∧ _step self action draw sampled =
        Ok (Env self.(cfg) new_state self.(done),
            (new_state, reward, self.(done), None)).
Proof.
  intros Hn Hs Ha Ht new_state.
  pose proof (ind2coord_ok self.(cfg).(n) self.(state)
                ltac:(lia) ltac:(lia)) as Hrc.
  rewrite (step_nonterminal _ _ _ _ _ _ Ha Ht Hrc). cbv zeta.
  rewrite move_shifted by done. fold new_state. rewrite bind_Ok.
  assert (Hrw : ∃ reward, _get_reward self (Some new_state) = Ok reward).
  { destruct (done self) eqn:Hd.
    - unfold _get_reward. rewrite Hd. eauto.
    - erewrite get_reward_running by done. eauto. }
  destruct Hrw as [reward Hrw]. exists reward. by rewrite Hrw.
Qed.

End GridMoves.

(** X2: a step from a cell of the grid other than the terminal one moves
    the index by the action it executes: [UP] and [DOWN] by -1 and +1
    within the column, [RIGHT] and [LEFT] by [+n] and [-n], and a move
    off the edge leaves it where it is.  The action executed is the one
    requested, unless the draw is below the noise: then it is the sampled
    one, whatever was requested. *)
Theorem step_moves_index
    (self : GridWorld.env) (action : Z) (draw : float) (sampled : Z) :
  let c := self.(GridWorld.cfg) in
  let s := self.(GridWorld.state) in
  0 < c.(GridWorld.n) → 0 <= s < c.(GridWorld.n) ^ 2 →
  Discrete_contains 4 action = true →
  s ≠ GridWorld.terminal_state c →
  let executed := if F.lt draw c.(GridWorld.noise) then sampled else action in
  let new_state :=
    if executed =? UP then
      (if s mod c.(GridWorld.n) =? 0 then s else s - 1)
    else if executed =? DOWN then
      (if s mod c.(GridWorld.n) =? c.(GridWorld.n) - 1 then s else s + 1)
    else if executed =? RIGHT then
      (if s / c.(GridWorld.n) =? c.(GridWorld.n) - 1 then s
       else s + c.(GridWorld.n))
    else if executed =? LEFT then
      (if s / c.(GridWorld.n) =? 0 then s else s - c.(GridWorld.n))
    else s in
  0 <= new_state < c.(GridWorld.n) ^ 2
  ∧ ∃ reward,
      GridWorld._step self action draw sampled
      = Ok (GridWorld.Env c new_state self.(GridWorld.done),
            (new_state, reward, self.(GridWorld.done), None)).
Proof.
  intros c s Hn Hs Ha Ht executed new_state.
  split; [by apply (shifted_in_grid _ s executed)|].
  destruct (step_shifted self action draw sampled Hn Hs Ha Ht)
    as (reward & _ & Hstep).
  by exists reward.
Qed.

Lemma step_moves_index_witness :
  0 <= 37 - 10 < 10 ^ 2
  ∧ ∃ reward,
      GridWorld._step (GridWorld.Env GridWorld.default 37 false)
        UP 0.0625%float LEFT
      = Ok (GridWorld.Env GridWorld.default (37 - 10) false,
            (37 - 10, reward, false, None)).
Proof.
  apply (step_moves_index (GridWorld.Env GridWorld.default 37 false)
           UP 0.0625%float LEFT); cbn; (lia || done).
Defined.

(** X3: a step that leaves the state where it was (a bump) starts on the
    border: when a step from a cell of the grid other than the terminal
    one, executing one of the four actions, returns the state it started
    from, [at_border] holds of that state. *)
Theorem bump_only_at_border
    (self : GridWorld.env) (action : Z) (draw : float) (sampled : Z)
    (self' : GridWorld.env) (r : GridWorld.step_result) :
  let c := self.(GridWorld.cfg) in
  0 < c.(GridWorld.n) →
  0 <= self.(GridWorld.state) < c.(GridWorld.n) ^ 2 →
  Discrete_contains 4 action = true → Discrete_contains 4 sampled = true →
  self.(GridWorld.state) ≠ GridWorld.terminal_state c →
  GridWorld._step self action draw sampled = Ok (self', r) →
  r.1.1.1 = self.(GridWorld.state) →
  GridWorld.at_border self = Ok true.
Proof.
  intros c Hn Hs Ha Hsa Ht Hstep Hsame. subst c.
  destruct (step_shifted self action draw sampled Hn Hs Ha Ht)
    as (reward & _ & Hstep').
  rewrite Hstep' in Hstep. simplify_eq. cbn [fst] in Hsame.
  set (a := if F.lt draw _ then sampled else action) in *.
  assert (Hav : Discrete_contains 4 a = true) by (subst a; by case_match).
  clearbody a. clear Hstep'.
  destruct (ind2coord_in_grid _ _ Hn Hs) as [Hr Hc].
  unfold GridWorld.at_border.
  rewrite ind2coord_ok by lia. rewrite bind_Ok. f_equal.
  unfold Discrete_contains in Hav. apply andb_prop in Hav as [Hlo Hhi].
  apply Z.leb_le in Hlo. apply Z.ltb_lt in Hhi.
  unfold GridWorld.shifted in Hsame.
  unfold UP, DOWN, RIGHT, LEFT in *.
  repeat match goal with
         | H : context [?a =? ?b] |- _ => destruct (Z.eqb_spec a b)
         end; try lia;
    repeat match goal with
           | |- context [?a =? ?b] => destruct (Z.eqb_spec a b)
           end; try done; lia.
Qed.

Lemma bump_only_at_border_witness :
  GridWorld.at_border (GridWorld.Env GridWorld.default 30 false) = Ok true.
Proof.
  apply (bump_only_at_border (GridWorld.Env GridWorld.default 30 false)
           UP 0.5%float 0 (GridWorld.Env GridWorld.default 30 false)
           (30, (-0.5)%float, false, None)); cbn; (lia || done).
Defined.

Section Episodes.

Import GridWorld.

Lemma absorbing_state_bounds (c : params) :
  absorbing_state c = c.(n) ^ 2 ∧ n_states c = c.(n) ^ 2 + 1.
Proof. unfold absorbing_state, n_states. lia. Qed.

End Episodes.

(** X4: an episode started on a cell of the grid, with [done] unset and
    valid actions, raises nothing: the run uses up its inputs or ends on a
    step that returns [done].  Every step of it starts on the grid and
    returns a state of [[0, n_states)], and the state returned is the
    absorbing one exactly on the step that returns [done]. *)
Theorem episode_stays_in_state_space
    (self : GridWorld.env) (ins : list GridWorld.input) :
  let c := self.(GridWorld.cfg) in
  0 < c.(GridWorld.n) →
  0 <= self.(GridWorld.state) < c.(GridWorld.n) ^ 2 →
  self.(GridWorld.done) = false →
  Forall (λ i, Discrete_contains 4 i.1.1 = true) ins →
  (length (GridWorld.episode self ins) = length ins
   ∨ ∃ e, last (GridWorld.episode self ins) = Some e ∧ e.2.1.2 = true)
  ∧ Forall (λ e, 0 <= e.1 < c.(GridWorld.n) ^ 2
                 ∧ 0 <= e.2.1.1.1 < GridWorld.n_states c
                 ∧ (e.2.1.2 = true ↔ e.2.1.1.1 = GridWorld.absorbing_state c))
      (GridWorld.episode self ins).
Proof.
  intros c Hn Hs Hd Hins. subst c. revert self Hn Hs Hd.
  induction Hins as [|[[action draw] sampled] ins Ha Hins IH];
    intros self Hn Hs Hd; [by split; [left|]|].
  cbn in Ha. cbn [GridWorld.episode].
  destruct (absorbing_state_bounds self.(GridWorld.cfg)) as [Habs Hns].
  destruct (decide (self.(GridWorld.state)
                    = GridWorld.terminal_state self.(GridWorld.cfg))) as [Ht|Ht].
  - rewrite (step_terminal _ _ _ _ Ha Ht). cbn.
    split; [right; eauto|]. repeat constructor; cbn; lia.
  - destruct (step_shifted self action draw sampled Hn Hs Ha Ht)
      as (reward & _ & ->).
    set (a := if F.lt draw _ then sampled else action).
    pose proof (shifted_in_grid _ _ a Hn Hs) as Hnew.
    cbn. rewrite Hd.
    destruct (IH (GridWorld.Env self.(GridWorld.cfg)
                    (GridWorld.shifted self.(GridWorld.cfg).(GridWorld.n)
                       self.(GridWorld.state) a) false) Hn Hnew eq_refl)
      as [Hrun Hall].
    cbn in Hrun, Hall. split.
    + destruct Hrun as [Hlen|(e & Hlast & He)].
      * left. cbn. by rewrite Hlen.
      * right. exists e. split; [|done].
        destruct (GridWorld.episode _ ins); [done|]. by rewrite last_cons_cons.
    + constructor; [|done]. cbn. split; [done|]. split; [lia|].
      split; [done|lia].
Qed.

Lemma episode_stays_in_state_space_witness :
  let self := GridWorld.Env GridWorld.scenario_3x3 0 false in
  let ins := [(DOWN, 0.5%float, 0); (RIGHT, 0.5%float, 0)] in
  (length (GridWorld.episode self ins) = length ins
   ∨ ∃ e, last (GridWorld.episode self ins) = Some e ∧ e.2.1.2 = true)
  ∧ Forall (λ e, 0 <= e.1 < 3 ^ 2
                 ∧ 0 <= e.2.1.1.1 < GridWorld.n_states GridWorld.scenario_3x3
                 ∧ (e.2.1.2 = true
                    ↔ e.2.1.1.1 = GridWorld.absorbing_state
                                    GridWorld.scenario_3x3))
      (GridWorld.episode self ins).
Proof.
  apply (episode_stays_in_state_space
           (GridWorld.Env GridWorld.scenario_3x3 0 false)
           [(DOWN, 0.5%float, 0); (RIGHT, 0.5%float, 0)]);
    cbn; try (lia || done). by repeat constructor.
Defined.

(** ** Reaching the terminal cell *)

Section Reach.

Import GridWorld.

Lemma toward_valid (n s t : Z) : Discrete_contains 4 (toward n s t) = true.
Proof. unfold toward. by repeat case_match. Qed.

Lemma distance_0 (n s t : Z) : 0 < n → distance n s t = 0 → s = t.
Proof.
  intros Hn Hd. unfold distance in Hd.
  rewrite (index_of n s Hn), (index_of n t Hn).
  assert (s mod n = t mod n) as -> by lia.
  assert (s / n = t / n) as -> by lia. done.
Qed.

(** the move [toward] the target brings the cell one move closer *)
Lemma toward_closer (n s t : Z) :
  0 < n → 0 <= s < n ^ 2 → 0 <= t < n ^ 2 → s ≠ t →
  distance n (shifted n s (toward n s t)) t = distance n s t - 1.
Proof.
  intros Hn Hs Ht Hne.
  destruct (ind2coord_in_grid n s Hn Hs) as [Hr Hc].
  destruct (ind2coord_in_grid n t Hn Ht) as [Htr Htc].
  pose proof (index_of n s Hn) as Hidx.
  assert (Hfar : s mod n ≠ t mod n ∨ s / n ≠ t / n).
  { destruct (decide (s mod n = t mod n)) as [E1|]; [|by left].
    destruct (decide (s / n = t / n)) as [E2|]; [|by right].
    exfalso. apply Hne. rewrite Hidx, (index_of n t Hn). by rewrite E1, E2. }
  unfold toward, shifted, UP, DOWN, RIGHT, LEFT.
  destruct (Z.ltb_spec (t mod n) (s mod n)) as [H1|H1]; cbn.
  { destruct (Z.eqb_spec (s mod n) 0); [lia|].
    destruct (row_col_of n (s mod n - 1) (s / n)) as [Er Ec]; [lia|lia|].
    unfold distance. replace (s - 1) with (s / n * n + (s mod n - 1)) by lia.
    rewrite Er, Ec. lia. }
  destruct (Z.ltb_spec (s mod n) (t mod n)) as [H2|H2]; cbn.
  { destruct (Z.eqb_spec (s mod n) (n - 1)); [lia|].
    destruct (row_col_of n (s mod n + 1) (s / n)) as [Er Ec]; [lia|lia|].
    unfold distance. replace (s + 1) with (s / n * n + (s mod n + 1)) by lia.
    rewrite Er, Ec. lia. }
  destruct (Z.ltb_spec (s / n) (t / n)) as [H3|H3]; cbn.
  { destruct (Z.eqb_spec (s / n) (n - 1)); [lia|].
    destruct (row_col_of n (s mod n) (s / n + 1)) as [Er Ec]; [lia|lia|].
    unfold distance. replace (s + n) with ((s / n + 1) * n + s mod n) by lia.
    rewrite Er, Ec. lia. }
  destruct (Z.eqb_spec (s / n) 0); [lia|].
  destruct (row_col_of n (s mod n) (s / n - 1)) as [Er Ec]; [lia|lia|].
  unfold distance. replace (s - n) with ((s / n - 1) * n + s mod n) by lia.
  rewrite Er, Ec. lia.
Qed.

(** from a cell at [d] moves from the terminal cell, [d + 1] steps whose
    draws miss the noise end the episode *)
Lemma reach_terminal (d : nat) (self : env) :
  0 < self.(cfg).(n) →
  F.lt 0.5 self.(cfg).(noise) = false →
  0 <= self.(state) < self.(cfg).(n) ^ 2 →
  0 <= terminal_state self.(cfg) < self.(cfg).(n) ^ 2 →
  self.(done) = false →
  distance self.(cfg).(n) self.(state) (terminal_state self.(cfg)) = Z.of_nat d →
  ∃ actions,
    Forall (λ a, Discrete_contains 4 a = true) actions
    ∧ length actions = S d
    ∧ last (episode self (quiet actions))
      = Some (terminal_state self.(cfg),
              (absorbing_state self.(cfg), self.(cfg).(terminal_reward),
               true, None)).
Proof.
  revert self. induction d as [|d IH]; intros self Hn Hnoise Hs Ht Hd Hdist.
  - apply distance_0 in Hdist; [|done]. exists [UP].
    split; [by repeat constructor|]. split; [done|].
    cbn [quiet map episode]. rewrite (step_terminal self UP); [|done|done].
    cbn. by rewrite Hdist.
  - set (t := terminal_state self.(cfg)) in *.
    assert (Hne : self.(state) ≠ t).
    { intros E. rewrite E in Hdist. unfold distance in Hdist. lia. }
    set (a := toward self.(cfg).(n) self.(state) t).
    destruct (step_shifted self a 0.5%float 0 Hn Hs (toward_valid _ _ _) Hne)
      as (reward & _ & Hstep).
    rewrite Hnoise in Hstep. fold a in Hstep.
    set (s' := shifted self.(cfg).(n) self.(state) a) in *.
    destruct (IH (Env self.(cfg) s' false)) as (actions & Hvalid & Hlen & Hlast);
      try done.
    { by apply shifted_in_grid. }
    { cbn. subst s' a. rewrite toward_closer by done. fold t. lia. }
    exists (a :: actions). split; [constructor; [apply toward_valid|done]|].
    split; [cbn; by rewrite Hlen|].
    cbn [quiet map episode]. rewrite Hstep, Hd. cbn.
    fold (quiet actions). cbn in Hlast.
    destruct (episode _ (quiet actions)); [done|]. by rewrite last_cons_cons.
Qed.

End Reach.

(** X5: the terminal cell can be reached from every cell of the grid.  On
    a grid of size [n >= 1] with [0 <= terminal_state_offset < n^2], from
    any cell with [done] unset, there are at most [2 n - 1] valid actions
    whose run, when the draws miss the noise (draws of [0.5]), ends the
    episode: its last step starts on the terminal cell and returns
    [(absorbing_state, terminal_reward, True, None)]. *)
Theorem terminal_cell_reachable (self : GridWorld.env) :
  let c := self.(GridWorld.cfg) in
  0 < c.(GridWorld.n) →
  F.lt 0.5 c.(GridWorld.noise) = false →
  0 <= c.(GridWorld.terminal_state_offset) < c.(GridWorld.n) ^ 2 →
  0 <= self.(GridWorld.state) < c.(GridWorld.n) ^ 2 →
  self.(GridWorld.done) = false →
  ∃ actions,
    Forall (λ a, Discrete_contains 4 a = true) actions
    ∧ Z.of_nat (length actions) <= 2 * c.(GridWorld.n) - 1
    ∧ last (GridWorld.episode self (GridWorld.quiet actions))
      = Some (GridWorld.terminal_state c,
              (GridWorld.absorbing_state c, c.(GridWorld.terminal_reward),
               true, None)).
Proof.
  intros c Hn Hnoise Hoff Hs Hd. subst c.
  set (c := self.(GridWorld.cfg)) in *.
  assert (Ht : 0 <= GridWorld.terminal_state c < c.(GridWorld.n) ^ 2).
  { unfold GridWorld.terminal_state, GridWorld.n_states. lia. }
  destruct (ind2coord_in_grid _ _ Hn Hs) as [Hr Hc].
  destruct (ind2coord_in_grid _ _ Hn Ht) as [Htr Htc].
  set (d := GridWorld.distance c.(GridWorld.n) self.(GridWorld.state)
              (GridWorld.terminal_state c)).
  assert (Hdist : 0 <= d <= 2 * (c.(GridWorld.n) - 1)).
  { subst d. unfold GridWorld.distance. lia. }
  destruct (reach_terminal (Z.to_nat d) self Hn Hnoise Hs Ht Hd)
    as (actions & Hvalid & Hlen & Hlast).
  { fold c d. lia. }
  exists actions. split; [done|]. split; [lia|done].
Qed.

Lemma terminal_cell_reachable_witness :
  ∃ actions,
    Forall (λ a, Discrete_contains 4 a = true) actions
    ∧ Z.of_nat (length actions) <= 2 * 10 - 1
    ∧ last (GridWorld.episode (GridWorld.Env GridWorld.default 0 false)
              (GridWorld.quiet actions))
      = Some (88, (100, 1%float, true, None)).
Proof.
  apply (terminal_cell_reachable (GridWorld.Env GridWorld.default 0 false));
    cbn; (lia || done).
Defined.

(** ** More on the sampler *)

Section SamplerMore.

Local Ltac to_spec :=
  unfold F.le, F.lt, F.gt in *;
  rewrite ?leb_spec, ?ltb_spec in *;
  unfold SFleb, SFltb in *.

Lemma F_le_lt_trans x y z :
  F.le x y = true → F.lt y z = true → F.lt x z = true.
Proof.
  to_spec.
  destruct (SFcompare (Prim2SF x) (Prim2SF y)) as [c1|] eqn:E1; [|done].
  destruct (SFcompare (Prim2SF y) (Prim2SF z)) as [c2|] eqn:E2; [|done].
  intros H1 H2.
  destruct (SFcompare_trans _ _ _ _ _ E1 E2) as (c3 & -> & _ & L);
    [by destruct c1|by destruct c2|].
  rewrite L; [done|]. right. by destruct c2.
Qed.

(** adding a zero to a number gives a float that is not above it *)
Lemma F_add_zero_le a x :
  F.le a a = true → F.le 0 x = true → F.lt 0 x = false →
  F.le (a + x)%float a = true.
Proof.
  to_spec. rewrite add_spec.
  change (Prim2SF 0%float) with (S754_zero false).
  destruct (Prim2SF x) as [sx|[]| |[] mx ex]; try done.
  destruct (Prim2SF a) as [[]|[]| |[] ma ea]; destruct sx; cbn; try done;
    change (Pos.compare_cont Eq) with Pos.compare;
    intros _ _ _; by rewrite Z.compare_refl, Pos.compare_refl.
Qed.

(** each cumulative sum is the one before plus the entry *)
Lemma cumsum_from_succ acc a k c x :
  (acc :: cumsum_from acc a) !! k = Some c → a !! k = Some x →
  (acc :: cumsum_from acc a) !! S k = Some (c + x)%float.
Proof.
  revert acc k. induction a as [|y a IH]; intros acc k Hc Hx; [done|].
  destruct k as [|k]; cbn in *.
  - by simplify_eq.
  - by apply IH.
Qed.

Lemma cumsum_succ p k c x :
  cumsum p !! k = Some c → p !! S k = Some x →
  cumsum p !! S k = Some (c + x)%float.
Proof.
  destruct p as [|x0 p]; [done|]. cbn [cumsum]. intros Hc Hx.
  by apply cumsum_from_succ.
Qed.

Lemma cumsum_first p x : p !! 0%nat = Some x → cumsum p !! 0%nat = Some x.
Proof. by destruct p. Qed.

End SamplerMore.

(** X6: the sampler is monotone in the draw: on a vector whose cumulative
    sums end in 1, of two draws below 1 the larger one never selects a
    smaller index. *)
Theorem categorical_sample_monotone (p : list float) (draw1 draw2 : float) :
  last (cumsum p) = Some 1%float →
  F.le draw1 draw2 = true → F.lt draw2 1 = true →
  ∃ i1 i2, categorical_sample p draw1 = Ok i1
           ∧ categorical_sample p draw2 = Ok i2
           ∧ (i1 <= i2)%nat.
Proof.
  intros Hlast H12 H2.
  assert (Hp : p ≠ []) by (intros ->; done).
  assert (H1 : F.lt draw1 1 = true) by by apply (F_le_lt_trans _ draw2).
  destruct (categorical_sample_spec p draw1 Hp) as (i1 & Hi1 & _ & Hcase1).
  destruct (categorical_sample_spec p draw2 Hp) as (i2 & Hi2 & _ & Hcase2).
  exists i1, i2. split; [done|]. split; [done|].
  destruct Hcase1 as [[_ Hmin1]|[_ Hall]]; cycle 1.
  { apply last_Some_elem_of, Hall in Hlast.
    unfold F.gt, F.lt in *. congruence. }
  destruct Hcase2 as [[(c & Hc & Hgt) _]|[_ Hall]]; cycle 1.
  { apply last_Some_elem_of, Hall in Hlast.
    unfold F.gt, F.lt in *. congruence. }
  destruct (le_lt_dec i1 i2) as [|Hlt]; [done|].
  specialize (Hmin1 i2 c Hlt Hc).
  assert (F.lt draw1 c = true) by by apply (F_le_lt_trans _ draw2).
  unfold F.gt, F.lt in *. congruence.
Qed.

Lemma categorical_sample_monotone_witness :
  ∃ i1 i2,
    categorical_sample [0.25%float; 0.5%float; 0.25%float] 0.125%float = Ok i1
    ∧ categorical_sample [0.25%float; 0.5%float; 0.25%float] 0.5%float = Ok i2
    ∧ (i1 <= i2)%nat.
Proof.
  apply (categorical_sample_monotone [0.25%float; 0.5%float; 0.25%float]);
    reflexivity.
Defined.

(** X7: the sampler never selects an outcome of probability zero: for a
    probability vector (non-negative entries whose cumulative sums end in
    1) and a draw of [[0,1)], the entry at the index returned is above
    0. *)
Theorem categorical_sample_positive (p : list float) (draw : float) :
  probability_vector p → F.unit_draw draw →
  ∃ i x, categorical_sample p draw = Ok i ∧ p !! i = Some x
         ∧ F.gt x 0 = true.
Proof.
  intros [Hnonneg Hlast] [H0 H1].
  assert (Hp : p ≠ []) by (intros ->; done).
  destruct (categorical_sample_spec p draw Hp) as (i & Hi & Hlen & Hcase).
  destruct Hcase as [[(c & Hc & Hgt) Hmin]|[_ Hall]]; cycle 1.
  { apply last_Some_elem_of, Hall in Hlast.
    unfold F.gt, F.lt in *. congruence. }
  destruct (lookup_lt_is_Some_2 p i Hlen) as [x Hx].
  exists i, x. split; [done|]. split; [done|].
  destruct i as [|k].
  - rewrite (cumsum_first p x Hx) in Hc. simplify_eq.
    by apply (F_le_lt_trans _ draw).
  - destruct (lookup_lt_is_Some_2 (cumsum p) k) as [a Ha].
    { rewrite cumsum_length. lia. }
    rewrite (cumsum_succ p k a x Ha Hx) in Hc. simplify_eq.
    assert (Hnum : F.le a a = true).
    { apply (cumsum_numbers p 1%float); [done|done|].
      by eapply list_elem_of_lookup_2. }
    assert (Hadraw : F.le a draw = true).
    { apply F_not_lt_ge; [by eapply F_le_number_r|done|].
      by apply (Hmin k); [lia|]. }
    assert (Hx0 : F.le 0 x = true).
    { rewrite Forall_forall in Hnonneg. apply Hnonneg.
      by eapply list_elem_of_lookup_2. }
    destruct (F.gt x 0) eqn:Hpos; [done|]. exfalso.
    pose proof (F_add_zero_le a x Hnum Hx0 Hpos) as Hle.
    pose proof (F_le_trans _ _ _ Hle Hadraw) as Hle'.
    apply F_lt_not_ge in Hgt. unfold F.le in *. congruence.
Qed.

Lemma categorical_sample_positive_witness :
  ∃ i x, categorical_sample [0%float; 1%float; 0%float] 0.5%float = Ok i
         ∧ [0%float; 1%float; 0%float] !! i = Some x
         ∧ F.gt x 0 = true.
Proof.
  apply (categorical_sample_positive [0%float; 1%float; 0%float]).
  - split; [|reflexivity]. repeat constructor.
  - split; reflexivity.
Defined.

(** ** More on the table-driven engine *)

Section EngineMore.

Import DiscreteEnv.

(** a step on a non-empty list of transitions takes one of its entries *)
Lemma step_takes_entry (self : env) (a : Z) (draw : float) row transitions :
  self.(P) !! self.(s) = Some row → row !! a = Some transitions →
  transitions ≠ [] →
  ∃ t, t ∈ transitions
       ∧ _step self a draw
         = Ok (Env self.(P) self.(isd) (Some a) self.(nS) self.(nA) t.1.1.2,
               (t.1.1.2, t.1.2, t.2, {[ "prob"%string := t.1.1.1 ]})).
Proof.
  intros Hrow Hts Hne.
  destruct (categorical_sample_spec (map t0 transitions) draw)
    as (i & Hi & Hlen & _).
  { by destruct transitions. }
  rewrite length_map in Hlen.
  destruct (lookup_lt_is_Some_2 transitions i Hlen) as [[[[p s'] r] d] Ht].
  exists (p, s', r, d). split; [by eapply list_elem_of_lookup_2|].
  unfold _step, getitem, list_getitem.
  rewrite Hrow, bind_Ok, Hts, bind_Ok, Hi, bind_Ok, Ht. done.
Qed.

End EngineMore.

(** X8: what [_step] of the engine does on every table: a state missing
    from [P] or an action missing from [P[s]] raises [KeyError]; an empty
    list of transitions raises [ValueError]; otherwise the step returns,
    and what it returns is one of the listed transitions, with the action
    recorded and the table unchanged.  It never fails on the index it
    samples. *)
Theorem engine_step_cases (self : DiscreteEnv.env) (a : Z) (draw : float) :
  match self.(DiscreteEnv.P) !! self.(DiscreteEnv.s) with
  | None => DiscreteEnv._step self a draw = Raise KeyError
  | Some row =>
      match row !! a with
      | None => DiscreteEnv._step self a draw = Raise KeyError
      | Some [] => DiscreteEnv._step self a draw = Raise ValueError
      | Some transitions =>
          ∃ p s' r d,
            (p, s', r, d) ∈ transitions
            ∧ DiscreteEnv._step self a draw
              = Ok (DiscreteEnv.Env self.(DiscreteEnv.P)
                      self.(DiscreteEnv.isd) (Some a)
                      self.(DiscreteEnv.nS) self.(DiscreteEnv.nA) s',
                    (s', r, d, {[ "prob"%string := p ]}))
      end
  end.
Proof.
  destruct (DiscreteEnv.P self !! DiscreteEnv.s self) as [row|] eqn:Hrow.
  - destruct (row !! a) as [[|t ts]|] eqn:Hts.
    + unfold DiscreteEnv._step, DiscreteEnv.getitem.
      by rewrite Hrow, bind_Ok, Hts, bind_Ok.
    + destruct (step_takes_entry self a draw row (t :: ts) Hrow Hts)
        as ([[[p s'] r] d] & Hin & Hstep); [done|].
      by exists p, s', r, d.
    + unfold DiscreteEnv._step, DiscreteEnv.getitem.
      by rewrite Hrow, bind_Ok, Hts.
  - unfold DiscreteEnv._step, DiscreteEnv.getitem. by rewrite Hrow.
Qed.

(** X9: [_reset] of the engine raises [ValueError] on an empty [isd];
    on any other [isd] it returns a state of [[0, len(isd))], whatever
    [nS] is, clears [lastaction] and leaves the table as it is; the
    constructor, which ends in [_reset], does the same. *)
Theorem engine_reset_cases (self : DiscreteEnv.env) (draw : float) :
  match self.(DiscreteEnv.isd) with
  | [] =>
      DiscreteEnv._reset self draw = Raise ValueError
      ∧ DiscreteEnv.__init__ self.(DiscreteEnv.nS) self.(DiscreteEnv.nA)
          self.(DiscreteEnv.P) self.(DiscreteEnv.isd) draw = Raise ValueError
  | _ =>
      ∃ i, (i < length self.(DiscreteEnv.isd))%nat
        ∧ DiscreteEnv._reset self draw
          = Ok (DiscreteEnv.Env self.(DiscreteEnv.P) self.(DiscreteEnv.isd)
                  None self.(DiscreteEnv.nS) self.(DiscreteEnv.nA)
                  (Z.of_nat i), Z.of_nat i)
        ∧ DiscreteEnv.__init__ self.(DiscreteEnv.nS) self.(DiscreteEnv.nA)
            self.(DiscreteEnv.P) self.(DiscreteEnv.isd) draw
          = Ok (DiscreteEnv.Env self.(DiscreteEnv.P) self.(DiscreteEnv.isd)
                  None self.(DiscreteEnv.nS) self.(DiscreteEnv.nA)
                  (Z.of_nat i))
  end.
Proof.
  unfold DiscreteEnv.__init__, DiscreteEnv._reset. cbn [DiscreteEnv.isd].
  destruct (DiscreteEnv.isd self) as [|x isd] eqn:Hisd; [done|].
  destruct (categorical_sample_spec (x :: isd) draw) as (i & Hi & Hlen & _);
    [done|].
  exists i. split; [done|]. by rewrite Hi.
Qed.

(** X10: a step on a state-action pair with a single listed transition
    takes it, whatever its probability and whatever the draw. *)
Theorem engine_step_single
    (self : DiscreteEnv.env) (a : Z) (draw : float) row
    (p : float) (s' : Z) (r : float) (d : bool) :
  self.(DiscreteEnv.P) !! self.(DiscreteEnv.s) = Some row →
  row !! a = Some [(p, s', r, d)] →
  DiscreteEnv._step self a draw
  = Ok (DiscreteEnv.Env self.(DiscreteEnv.P) self.(DiscreteEnv.isd) (Some a)
          self.(DiscreteEnv.nS) self.(DiscreteEnv.nA) s',
        (s', r, d, {[ "prob"%string := p ]})).
Proof.
  intros Hrow Hts.
  destruct (step_takes_entry self a draw row _ Hrow Hts)
    as (t & Hin & Hstep); [done|].
  apply list_elem_of_singleton in Hin. by subst t.
Qed.

Lemma engine_step_single_witness :
  DiscreteEnv._step
    (DiscreteEnv.Env DiscreteEnv.scenario_P DiscreteEnv.scenario_isd None 2 1 0)
    0 0.5%float
  = Ok (DiscreteEnv.Env DiscreteEnv.scenario_P DiscreteEnv.scenario_isd
          (Some 0) 2 1 1,
        (1, 5%float, true, {[ "prob"%string := 1%float ]})).
Proof.
  apply (engine_step_single
           (DiscreteEnv.Env DiscreteEnv.scenario_P DiscreteEnv.scenario_isd
              None 2 1 0) 0 0.5%float
           ({[ 0 := [(1%float, 1, 5%float, true)] ]}
            : gmap Z (list DiscreteEnv.transition))).
  - by vm_compute.
  - apply lookup_singleton_eq.
Defined.

(** X11: on a closed table a run never raises: from a state the table
    lists, with actions of [[0, nA)], every step returns, the table is
    unchanged, and every state returned, the last one included, is a state
    the table lists. *)
Theorem engine_run_closed
    (self : DiscreteEnv.env) (nA : Z) (ins : list (Z * float)) :
  DiscreteEnv.closed self.(DiscreteEnv.P) nA →
  is_Some (self.(DiscreteEnv.P) !! self.(DiscreteEnv.s)) →
  Forall (λ i, 0 <= i.1 < nA) ins →
  ∃ self' rs,
    DiscreteEnv.run self ins = Ok (self', rs)
    ∧ length rs = length ins
    ∧ self'.(DiscreteEnv.P) = self.(DiscreteEnv.P)
    ∧ is_Some (self.(DiscreteEnv.P) !! self'.(DiscreteEnv.s))
    ∧ Forall (λ r, is_Some (self.(DiscreteEnv.P) !! r.1.1.1)) rs.
Proof.
  intros Hclosed Hs Hins. revert self Hclosed Hs.
  induction Hins as [|[a draw] ins Ha Hins IH]; intros self Hclosed Hs.
  - exists self, []. by repeat split.
  - destruct Hs as [row Hrow]. cbn in Ha.
    destruct (Hclosed _ row Hrow a Ha) as (ts & Hts & Hne & Hnext).
    destruct (step_takes_entry self a draw row ts Hrow Hts Hne)
      as (t & Hin & Hstep).
    cbn [DiscreteEnv.run]. rewrite Hstep, bind_Ok. cbn [fst snd].
    destruct (IH (DiscreteEnv.Env self.(DiscreteEnv.P) self.(DiscreteEnv.isd)
                    (Some a) self.(DiscreteEnv.nS) self.(DiscreteEnv.nA)
                    t.1.1.2))
      as (self' & rs & Hrun & Hlen & HP & Hs' & Hall).
    { done. }
    { cbn. by apply Hnext. }
    cbn in HP, Hs', Hall.
    exists self', ((t.1.1.2, t.1.2, t.2, {[ "prob"%string := t.1.1.1 ]}) :: rs).
    rewrite Hrun, bind_Ok. cbn [fst snd].
    split; [done|]. split; [cbn; by rewrite Hlen|]. split; [done|].
    split; [done|]. constructor; [|done]. cbn. by apply Hnext.
Qed.

Lemma engine_run_closed_witness :
  let self := DiscreteEnv.Env DiscreteEnv.scenario_P DiscreteEnv.scenario_isd
                None 2 1 0 in
  let ins := [(0, 0.5%float); (0, 0.25%float)] in
  ∃ self' rs,
    DiscreteEnv.run self ins = Ok (self', rs)
    ∧ length rs = length ins
    ∧ self'.(DiscreteEnv.P) = self.(DiscreteEnv.P)
    ∧ is_Some (self.(DiscreteEnv.P) !! self'.(DiscreteEnv.s))
    ∧ Forall (λ r, is_Some (self.(DiscreteEnv.P) !! r.1.1.1)) rs.
Proof.
  apply (engine_run_closed
           (DiscreteEnv.Env DiscreteEnv.scenario_P DiscreteEnv.scenario_isd
              None 2 1 0) 1 [(0, 0.5%float); (0, 0.25%float)]).
  - intros s row Hs a Ha. assert (a = 0) as -> by lia.
    unfold DiscreteEnv.scenario_P in Hs. cbn [DiscreteEnv.P] in Hs.
    apply lookup_insert_Some in Hs as [[<- <-]|[_ Hs]].
    + eexists. split; [apply lookup_singleton_eq|]. split; [done|].
      intros t ->%list_elem_of_singleton.
      exists ({[ 0 := [(1%float, 1, 0%float, true)] ]}
              : gmap Z (list DiscreteEnv.transition)). by vm_compute.
    + apply lookup_singleton_Some in Hs as [<- <-].
      eexists. split; [apply lookup_singleton_eq|]. split; [done|].
      intros t ->%list_elem_of_singleton.
      exists ({[ 0 := [(1%float, 1, 0%float, true)] ]}
              : gmap Z (list DiscreteEnv.transition)). by vm_compute.
  - exists ({[ 0 := [(1%float, 1, 5%float, true)] ]}
            : gmap Z (list DiscreteEnv.transition)). by vm_compute.
  - repeat constructor; cbn; lia.
Defined.

(** ** The length of an episode *)

Section EpisodeLength.

Import GridWorld.

(** a move changes the distance to a cell by one at most *)
Lemma shifted_distance (n s t action : Z) :
  0 < n → 0 <= s < n ^ 2 →
  distance n s t - 1 <= distance n (shifted n s action) t.
Proof.
  intros Hn Hs.
  destruct (ind2coord_in_grid n s Hn Hs) as [Hr Hc].
  pose proof (index_of n s Hn) as Hidx.
  unfold shifted, UP, DOWN, RIGHT, LEFT.
  repeat match goal with
         | |- context [?a =? ?b] => destruct (Z.eqb_spec a b)
         end; try lia.
  - destruct (row_col_of n (s mod n - 1) (s / n)) as [Er Ec]; [lia|lia|].
    unfold distance. replace (s - 1) with (s / n * n + (s mod n - 1)) by lia.
    rewrite Er, Ec. lia.
  - destruct (row_col_of n (s mod n + 1) (s / n)) as [Er Ec]; [lia|lia|].
    unfold distance. replace (s + 1) with (s / n * n + (s mod n + 1)) by lia.
    rewrite Er, Ec. lia.
  - destruct (row_col_of n (s mod n) (s / n + 1)) as [Er Ec]; [lia|lia|].
    unfold distance. replace (s + n) with ((s / n + 1) * n + s mod n) by lia.
    rewrite Er, Ec. lia.
  - destruct (row_col_of n (s mod n) (s / n - 1)) as [Er Ec]; [lia|lia|].
    unfold distance. replace (s - n) with ((s / n - 1) * n + s mod n) by lia.
    rewrite Er, Ec. lia.
Qed.

Lemma distance_nonneg (n s t : Z) : 0 <= distance n s t.
Proof. unfold distance. lia. Qed.

End EpisodeLength.

(** X12: no episode is shorter than the way to the terminal cell: when a
    run from a cell of the grid with [done] unset ends on a step that
    returns [done], it has at least [distance + 1] steps, where [distance]
    is the number of moves between the start and the terminal cell;
    whatever the actions, the draws and the noise. *)
Theorem episode_length_lower_bound
    (self : GridWorld.env) (ins : list GridWorld.input)
    (e : Z * GridWorld.step_result) :
  let c := self.(GridWorld.cfg) in
  0 < c.(GridWorld.n) →
  0 <= self.(GridWorld.state) < c.(GridWorld.n) ^ 2 →
  self.(GridWorld.done) = false →
  last (GridWorld.episode self ins) = Some e → e.2.1.2 = true →
  GridWorld.distance c.(GridWorld.n) self.(GridWorld.state)
    (GridWorld.terminal_state c) + 1
  <= Z.of_nat (length (GridWorld.episode self ins)).
Proof.
  intros c Hn Hs Hd Hlast He. subst c. revert self Hn Hs Hd Hlast.
  induction ins as [|[[action draw] sampled] ins IH];
    intros self Hn Hs Hd Hlast; [done|].
  cbn [GridWorld.episode] in *.
  destruct (Discrete_contains 4 action) eqn:Ha; cycle 1.
  { unfold GridWorld._step in Hlast. by rewrite Ha in Hlast. }
  destruct (decide (self.(GridWorld.state)
                    = GridWorld.terminal_state self.(GridWorld.cfg))) as [Ht|Ht].
  - rewrite (step_terminal _ _ _ _ Ha Ht). cbn. rewrite Ht.
    unfold GridWorld.distance. lia.
  - destruct (step_shifted self action draw sampled Hn Hs Ha Ht)
      as (reward & _ & Hstep).
    rewrite Hstep in *. cbn [fst snd] in *. rewrite Hd in *.
    set (a := if F.lt draw _ then sampled else action) in *.
    set (s' := GridWorld.shifted _ _ a) in *.
    set (self' := GridWorld.Env _ s' false) in *.
    destruct (GridWorld.episode self' ins) as [|e0 es] eqn:Hep.
    { cbn in Hlast. by simplify_eq. }
    rewrite last_cons_cons in Hlast.
    specialize (IH self' Hn (shifted_in_grid _ _ a Hn Hs) eq_refl).
    rewrite Hep in IH. specialize (IH Hlast).
    pose proof (shifted_distance self.(GridWorld.cfg).(GridWorld.n)
                  self.(GridWorld.state)
                  (GridWorld.terminal_state self.(GridWorld.cfg)) a Hn Hs).
    cbn [length] in *. cbn in IH. fold s' in H. lia.
Qed.

Lemma episode_length_lower_bound_witness :
  GridWorld.distance 3 0 7 + 1
  <= Z.of_nat (length (GridWorld.episode
                         (GridWorld.Env GridWorld.scenario_3x3 0 false)
                         [(DOWN, 0.5%float, 0); (RIGHT, 0.5%float, 0);
                          (RIGHT, 0.5%float, 0); (UP, 0.5%float, 0)])).
Proof.
  apply (episode_length_lower_bound
           (GridWorld.Env GridWorld.scenario_3x3 0 false)
           [(DOWN, 0.5%float, 0); (RIGHT, 0.5%float, 0);
            (RIGHT, 0.5%float, 0); (UP, 0.5%float, 0)]
           (7, (9, 1%float, true, None))); cbn; (lia || done).
Defined.

(** X13: the constructor of the grid world checks none of its arguments:
    with a fixed start state it returns for every [n], start state and
    offset, with the state on the start state and [done] unset.  On a grid
    of size 0 every step with a valid action from a state other than the
    terminal one then raises: [ZeroDivisionError] from a state that is not
    negative, [AssertionError] from a negative one. *)
Theorem grid_arguments_unchecked (c : GridWorld.params) (i drawn : Z) :
  c.(GridWorld.start_state) = GridWorld.StartIndex i →
  GridWorld.__init__ c drawn = Ok (GridWorld.Env c i false)
  ∧ (c.(GridWorld.n) = 0 → i ≠ GridWorld.terminal_state c →
     ∀ action draw sampled,
       Discrete_contains 4 action = true →
       GridWorld._step (GridWorld.Env c i false) action draw sampled
       = Raise (if 0 <=? i then ZeroDivisionError else AssertionError)).
Proof.
  intros Hstart. split.
  - unfold GridWorld.__init__, GridWorld._reset. cbn. by rewrite Hstart.
  - intros Hn Ht action draw sampled Ha.
    unfold GridWorld._step. rewrite assert_true by done. rewrite bind_Ok.
    cbn [GridWorld.state GridWorld.cfg].
    destruct (Z.eqb_spec i (GridWorld.terminal_state c)); [done|].
    unfold GridWorld.ind2coord. rewrite Hn.
    destruct (Z.leb_spec 0 i).
    + rewrite assert_true by lia. done.
    + rewrite assert_false by lia. done.
Qed.

Lemma grid_arguments_unchecked_witness :
  let c := GridWorld.Params 0 0%float 1%float 0%float 0%float
             (GridWorld.StartIndex 0) (-0.5)%float 11 in
  GridWorld.__init__ c 0 = Ok (GridWorld.Env c 0 false)
  ∧ (0 = 0 → 0 ≠ GridWorld.terminal_state c →
     ∀ action draw sampled,
       Discrete_contains 4 action = true →
       GridWorld._step (GridWorld.Env c 0 false) action draw sampled
       = Raise ZeroDivisionError).
Proof.
  apply (grid_arguments_unchecked
           (GridWorld.Params 0 0%float 1%float 0%float 0%float
              (GridWorld.StartIndex 0) (-0.5)%float 11) 0 0).
  reflexivity.
Defined.
